(** * ssx: Endnote XML dump to CSV spreadsheet

    A shallow embedding of [ssx.py] and of the parts of the Python library it
    drives ([xml.etree.ElementTree] path lookups, [str.join], [str.format],
    [csv.DictWriter] with the default [excel] dialect), followed by the
    properties of the extraction and of the written table.

    Python [str] values are modelled by [string]; a Python value that may be
    [None] is an [option]; a raised exception is the [Raise] case of
    [result]. The characters are those of [ascii]: beyond the equality of
    strings, the code looks only for the comma, the double quote, CR and
    LF. *)

From Stdlib Require Import Ascii String.
From stdpp Require Import gmap strings list.

Set Warnings "-register-all".

(** ** Exceptions and results *)

Inductive Exn : Set :=
  | TypeError    (* str.join over a sequence holding a non-str item *)
  | ValueError   (* DictWriter: dict contains fields not in fieldnames *)
  | ParseError   (* xml.etree.ElementTree.ParseError *)
  | OSError      (* open() failed *)
  | CsvError.    (* csv.Error of the reader *)

Inductive result (A : Type) : Type :=
  | Ok (a : A)
  | Raise (e : Exn).
Arguments Ok {A} a.
Arguments Raise {A} e.

Definition bind {A B} (r : result A) (k : A -> result B) : result B :=
  match r with
  | Ok a => k a
  | Raise e => Raise e
  end.

Notation "'let*' x ':=' r 'in' k" := (bind r (fun x => k))
  (at level 10, x name, r at level 100, k at level 200, only parsing).

#[local] Arguments String.append !_ _ / : simpl nomatch.

(** ** The element tree

    An [xml.etree.ElementTree.Element] as far as the program looks at it:
    the tag, the text before the first child ([None] when the element has
    none) and the children in document order. *)

Module ET.

Inductive Element : Type :=
  | Elem (tag : string) (text : option string) (children : list Element).

Definition tag (e : Element) : string :=
  match e with Elem t _ _ => t end.
Definition text (e : Element) : option string :=
  match e with Elem _ x _ => x end.
Definition children (e : Element) : list Element :=
  match e with Elem _ _ cs => cs end.

(** A path such as [./records/record] after tokenisation: [.] selects the
    context element, a tag selects the children with that tag. *)
Inductive Step : Set :=
  | Self
  | Child (t : string).

(** [prepare_child]: for every element of the result so far, its children
    with the tag, in order. *)
Definition select_child (t : string) (result : list Element) : list Element :=
  flat_map (fun elem => filter (fun e => tag e = t) (children elem)) result.

Definition select (s : Step) (result : list Element) : list Element :=
  match s with
  | Self => result
  | Child t => select_child t result
  end.

(** [Element.findall(path)]: all matches, in document order. *)
Definition findall (path : list Step) (elem : Element) : list Element :=
  fold_left (fun result s => select s result) path [elem].

(** [Element.find(path)]: the first match or [None]. *)
Definition find (path : list Step) (elem : Element) : option Element :=
  head (findall path elem).

End ET.
Export ET.

(** ** Library string operations *)

(** [sep.join(items)] over strings. *)
Fixpoint join_str (sep : string) (items : list string) : string :=
  match items with
  | [] => EmptyString
  | [s] => s
  | s :: rest => s +:+ sep +:+ join_str sep rest
  end.

(** The items of a Python list that must all be [str]; an item that is
    [None] makes [str.join] raise [TypeError]. *)
Fixpoint expect_strs (items : list (option string)) : result (list string) :=
  match items with
  | [] => Ok []
  | Some s :: rest => let* ss := expect_strs rest in Ok (s :: ss)
  | None :: _ => Raise TypeError
  end.

(** [sep.join(items)] *)
Definition join (sep : string) (items : list (option string)) : result string :=
  let* ss := expect_strs items in Ok (join_str sep ss).

(** ["{}:{}:{}".format(a, b, c)] *)
Definition format3 (a b c : string) : string :=
  a +:+ ":" +:+ b +:+ ":" +:+ c.

(** ** The record extractor ([main], lines 73 to 106) *)

(** One output row: the [line] dict of the loop body. *)
Abbreviation Line := (gmap string string).

Definition records_path : list Step := [Self; Child "records"; Child "record"].
Definition authors_path : list Step :=
  [Self; Child "contributors"; Child "authors"; Child "author"; Child "style"].
Definition pubDate_path : list Step := [Self; Child "dates"; Child "year"; Child "style"].
Definition journal_path : list Step :=
  [Self; Child "titles"; Child "secondary-title"; Child "style"].
Definition title_path : list Step := [Self; Child "titles"; Child "title"; Child "style"].
Definition vol_path : list Step := [Self; Child "volume"; Child "style"].
Definition num_path : list Step := [Self; Child "number"; Child "style"].
Definition pgs_path : list Step := [Self; Child "pages"; Child "style"].
Definition label_path : list Step := [Self; Child "label"; Child "style"].
Definition work_type_path : list Step := [Self; Child "work-type"; Child "style"].

(** [x.text if ((x is not None) and (x.text is not None)) else ''] *)
Definition text_or_empty (x : option Element) : string :=
  match x with
  | Some e => match text e with
              | Some t => t
              | None => EmptyString
              end
  | None => EmptyString
  end.

(** The three components of the Volume column (lines 90 to 95). *)
Definition volume (rec : Element) : string := text_or_empty (find vol_path rec).
Definition number (rec : Element) : string := text_or_empty (find num_path rec).
Definition pages (rec : Element) : string := text_or_empty (find pgs_path rec).

(** Lines 96 and 97. *)
Definition vol_ref (rec : Element) : string :=
  format3 (volume rec) (number rec) (pages rec).

Definition Volume (rec : Element) : string :=
  if bool_decide (vol_ref rec ≠ "::") then vol_ref rec else EmptyString.

(** Line 78: the texts of all author style leaves. *)
Definition auths (rec : Element) : list (option string) :=
  map text (findall authors_path rec).

(** The body of the loop over the records, up to [lines.append]. *)
Definition extract_line (rec : Element) : result Line :=
  let line : Line := ∅ in
  let* Authors := join "; " (auths rec) in
  let line := <["Authors" := Authors]> line in
  let pubDate := find pubDate_path rec in
  let line := <["PubDate" := text_or_empty pubDate]> line in
  let journal := find journal_path rec in
  let line := <["Journal" := text_or_empty journal]> line in
  let title := find title_path rec in
  let line := <["Title" := text_or_empty title]> line in
  let line := <["Volume" := Volume rec]> line in
  let label := find label_path rec in
  let line := <["Label" := text_or_empty label]> line in
  let work_type := find work_type_path rec in
  let line := <["WorkType" := text_or_empty work_type]> line in
  Ok line.

(** The loop: [lines] grows by one row per record, or the first exception
    leaves the loop. *)
Fixpoint extract_loop (recs : list Element) (lines : list Line) : result (list Line) :=
  match recs with
  | [] => Ok lines
  | rec :: recs' =>
      let* line := extract_line rec in
      extract_loop recs' (lines ++ [line])
  end.

(** Lines 74 to 106 on a parsed document. *)
Definition extract (root : Element) : result (list Line) :=
  extract_loop (findall records_path root) [].

(** ** The tabular writer ([csv.writer], dialect [excel])

    The dialect: delimiter [,], quotechar the double quote, doublequote on,
    no escapechar, lineterminator CR LF, quoting [QUOTE_MINIMAL]. *)

Module Csv.

Definition delimiter : ascii := ","%char.
Definition quotechar : ascii := "034"%char.
Definition CR : ascii := "013"%char.
Definition LF : ascii := "010"%char.
Definition lineterminator : string := String CR (String LF EmptyString).

(** [PyUnicode_FindChar(s, c) >= 0] *)
Fixpoint find_char (s : string) (c : ascii) : bool :=
  match s with
  | EmptyString => false
  | String d s' => (c =? d)%char || find_char s' c
  end.

(** The test of [join_append_data] that sets [*quoted]. *)
Definition special (c : ascii) : bool :=
  (c =? delimiter)%char || (c =? quotechar)%char || find_char lineterminator c.

(** First pass of [join_append] over the field: the [quoted] flag. *)
Fixpoint scan_field (field : string) (quoted : bool) : bool :=
  match field with
  | EmptyString => quoted
  | String c rest => scan_field rest (quoted || special c)
  end.

(** The characters the copy pass emits for the field: a quotechar is
    doubled. *)
Fixpoint copy_field (field : string) : string :=
  match field with
  | EmptyString => EmptyString
  | String c rest =>
      if (c =? quotechar)%char
      then String quotechar (String c (copy_field rest))
      else String c (copy_field rest)
  end.

Definition opt_char (b : bool) (c : ascii) : string :=
  if b then String c EmptyString else EmptyString.

(** [join_append_data] in its copy phase: separator, opening quote, data,
    closing quote. *)
Definition join_append_data (num_fields : nat) (field : string) (quoted : bool) : string :=
  opt_char (0 <? num_fields)%nat delimiter +:+
  opt_char quoted quotechar +:+ copy_field field +:+ opt_char quoted quotechar.

(** [join_append]: the record buffer and the field count after the field. *)
Definition join_append (rec : string) (num_fields : nat) (field : string) (quoted : bool)
  : string * nat :=
  let quoted := scan_field field quoted in
  (rec +:+ join_append_data num_fields field quoted, S num_fields).

Fixpoint join_fields (rec : string) (num_fields : nat) (row : list string) : string * nat :=
  match row with
  | [] => (rec, num_fields)
  | field :: row' =>
      let '(rec', n') := join_append rec num_fields field false in
      join_fields rec' n' row'
  end.

(** [csv_writerow]: the text handed to the file's [write]. A record of one
    empty field is written as a pair of quotes. *)
Definition writerow (row : list string) : string :=
  let '(rec, num_fields) := join_fields EmptyString 0 row in
  let rec :=
    if (0 <? num_fields)%nat && (String.length rec =? 0)%nat
    then fst (join_append EmptyString 0 EmptyString true)
    else rec in
  rec +:+ lineterminator.

End Csv.

(** ** [csv.DictWriter], with its defaults [restval=''] and
    [extrasaction='raise'] *)

(** [_dict_to_list] *)
Definition dict_to_list (fieldnames : list string) (rowdict : Line) : result (list string) :=
  let wrong_fields : gset string := dom rowdict ∖ list_to_set fieldnames in
  if bool_decide (wrong_fields ≠ ∅) then Raise ValueError
  else Ok (map (fun key => default EmptyString (rowdict !! key)) fieldnames).

(** [DictWriter.writerow] on the text written so far. *)
Definition dict_writerow (fieldnames : list string) (rowdict : Line) (csvfile : string)
  : result string :=
  let* row := dict_to_list fieldnames rowdict in
  Ok (csvfile +:+ Csv.writerow row).

(** [writeheader]: the row [dict(zip(fieldnames, fieldnames))]. *)
Definition writeheader (fieldnames : list string) (csvfile : string) : result string :=
  let header : Line := list_to_map (zip fieldnames fieldnames) in
  dict_writerow fieldnames header csvfile.

(** [writerows]: the rows one after the other; the text written before a
    row raises stays in the file. *)
Fixpoint writerows (fieldnames : list string) (rowdicts : list Line) (csvfile : string)
  : string * option Exn :=
  match rowdicts with
  | [] => (csvfile, None)
  | rowdict :: rest =>
      match dict_writerow fieldnames rowdict csvfile with
      | Ok csvfile' => writerows fieldnames rest csvfile'
      | Raise e => (csvfile, Some e)
      end
  end.

(** Line 134. *)
Definition fields : list string :=
  ["Authors"; "PubDate"; "Title"; "Journal"; "Volume"; "Label"; "WorkType"].

(** Lines 138 to 140 on a freshly opened, empty file: the text in the file
    when the [with] block is left, and the exception that left it. *)
Definition csv_text (lines : list Line) : string * option Exn :=
  match writeheader fields EmptyString with
  | Ok csvfile => writerows fields lines csvfile
  | Raise e => (EmptyString, Some e)
  end.

(** ** The process: files, exits and [main]

    The file system holds the regular files by path; a path that is not in
    it is not a regular file. Two different paths are two different files:
    links and the several spellings of one path are not modelled.
    [creatable] tells whether [open(path, 'w')] can create a file that does
    not exist yet. The log records the effects in the order they happen. A
    file holds the text written to it as the text stream passes it on; the
    line separator of the platform is LF, as on POSIX. *)

Record File : Type := mkFile {
  content : string;
  readable : bool;
  writable : bool
}.

Inductive Event : Type :=
  | Stderr (msg : string)       (* print(..., file=sys.stderr) *)
  | XmlParse (path : string)    (* xmlet.parse(path) *)
  | OpenWrite (path : string).  (* open(path, 'w') *)

Record World : Type := mkWorld {
  fs : gmap string File;
  creatable : string -> bool;
  log : list Event
}.

Definition emit (ev : Event) (w : World) : World :=
  mkWorld (fs w) (creatable w) (log w ++ [ev]).

Definition set_file (path : string) (f : File) (w : World) : World :=
  mkWorld (<[path := f]> (fs w)) (creatable w) (log w).

(** How a call ends: it returns, [sys.exit(code)] unwinds the process, or
    an exception nobody catches does. *)
Inductive Completion (A : Type) : Type :=
  | Normal (a : A)
  | SystemExit (code : Z)
  | Uncaught (e : Exn).
Arguments Normal {A} a.
Arguments SystemExit {A} code.
Arguments Uncaught {A} e.

(** The exit status of the process. *)
Definition exit_status {A} (c : Completion A) : Z :=
  match c with
  | Normal _ => 0
  | SystemExit code => code
  | Uncaught _ => 1
  end%Z.

Definition Proc (A : Type) : Type := World -> Completion A * World.

Definition bindP {A B} (m : Proc A) (k : A -> Proc B) : Proc B :=
  fun w =>
    match m w with
    | (Normal a, w') => k a w'
    | (SystemExit code, w') => (SystemExit code, w')
    | (Uncaught e, w') => (Uncaught e, w')
    end.

Notation "'do*' x ':=' m 'in' k" := (bindP m (fun x => k))
  (at level 10, x name, m at level 100, k at level 200, only parsing).

Definition PROG_NAME : string := "ssx".

Definition isfile (w : World) (apath : string) : bool :=
  bool_decide (is_Some (fs w !! apath)).

(** [os.access(apath, os.R_OK)] *)
Definition access_R_OK (w : World) (apath : string) : bool :=
  match fs w !! apath with
  | Some f => readable f
  | None => false
  end.

(** Lines 122 to 124; the result as Python's [if] reads it. *)
Definition readable_file_path (w : World) (apath : string) : bool :=
  bool_decide (apath ≠ EmptyString) && isfile w apath && access_R_OK w apath.

(** Lines 111 to 119. *)
Definition check_input_file (input_file tool_name : string) (exit_code : Z) : Proc unit :=
  fun w =>
    if negb (readable_file_path w input_file) then
      let errMsg :=
        "(" +:+ tool_name +:+
        "): ERROR: a readable, valid Endnote XML dump file must be specified. Exiting..." in
      (SystemExit exit_code, emit (Stderr errMsg) w)
    else (Normal tt, w).

(** Lines 127 to 129. [xml_parse] is the XML parser on the text of the
    file: the root element, or [None] when the parser raises. The model
    records that exception as [ParseError] whatever its Python class
    (the parser raises [LookupError] or [ValueError] for an encoding
    declaration it cannot handle). *)
Definition read_xml (xml_parse : string -> option Element) (infile : string) : Proc Element :=
  fun w =>
    let w := emit (XmlParse infile) w in
    match fs w !! infile with
    | Some f =>
        if readable f then
          match xml_parse (content f) with
          | Some root => (Normal root, w)
          | None => (Uncaught ParseError, w)
          end
        else (Uncaught OSError, w)
    | None => (Uncaught OSError, w)
    end.

(** [open(filename, 'w')]: an existing writable file is truncated, a
    missing one is created where that is possible. A created file is taken
    to be writable afterwards (no umask that takes the owner's write
    permission). *)
Definition open_w (filename : string) : Proc unit :=
  fun w =>
    let w := emit (OpenWrite filename) w in
    match fs w !! filename with
    | Some f =>
        if writable f
        then (Normal tt, set_file filename (mkFile EmptyString (readable f) true) w)
        else (Uncaught OSError, w)
    | None =>
        if creatable w filename
        then (Normal tt, set_file filename (mkFile EmptyString true true) w)
        else (Uncaught OSError, w)
    end.

(** [os.linesep], the line separator of the platform: LF, as on POSIX. *)
Definition linesep : string := String Csv.LF EmptyString.

(** What a text stream opened without a [newline] argument makes of the
    text written to it: every LF becomes the line separator [sep]. *)
Fixpoint text_mode_write (sep : string) (s : string) : string :=
  match s with
  | EmptyString => EmptyString
  | String c s' =>
      if (c =? Csv.LF)%char then sep +:+ text_mode_write sep s'
      else String c (text_mode_write sep s')
  end.

(** The file when the [with] block is left: what was written is in it, as
    the text stream of [open(filename, 'w')] passes it on. The stream is
    taken to accept the text: an encoding that lacks a character of it, or
    a full device, is not modelled. *)
Definition close_with (filename : string) (written : string * option Exn) : Proc unit :=
  fun w =>
    let f := default (mkFile EmptyString true true) (fs w !! filename) in
    let stored := text_mode_write linesep (fst written) in
    let w := set_file filename (mkFile stored (readable f) (writable f)) w in
    match snd written with
    | None => (Normal tt, w)
    | Some e => (Uncaught e, w)
    end.

(** Lines 132 to 140. *)
Definition save_to_CSV (lines : list Line) (filename : string) : Proc unit :=
  do* _ := open_w filename in
  close_with filename (csv_text lines).

(** The rows of the document, or the exception of the loop. *)
Definition extract_rows (root : Element) : Proc (list Line) :=
  fun w =>
    match extract root with
    | Ok lines => (Normal lines, w)
    | Raise e => (Uncaught e, w)
    end.

(** [main], from line 61 on, for the parsed arguments [input_file] and
    [output_file]. No [debug] or [verbose] argument is declared, so the two
    [args.get] tests before are always false. *)
Definition main (xml_parse : string -> option Element) (input_file output_file : string)
  : Proc unit :=
  do* _ := check_input_file input_file PROG_NAME 20 in
  do* root := read_xml xml_parse input_file in
  do* lines := extract_rows root in
  save_to_CSV lines output_file.

(** ** Reading the table back ([csv.reader], dialect [excel])

    The reader the written file is meant for: Python's own, over the lines
    of the file opened with [newline=''], as the library asks. It is the
    state machine of [parse_process_char] with the dialect's settings put
    in (no escapechar, [skipinitialspace] and [strict] off, doublequote
    on), so the states that only an escapechar reaches are left out. The end
    of a line is signalled to the machine by [None], a value apart from
    every character. The configurable [field_size_limit] is taken to be
    large enough for the fields. *)

Module CsvReader.
Import Csv.

Inductive ParserState : Set :=
  | START_RECORD
  | START_FIELD
  | IN_FIELD
  | IN_QUOTED_FIELD
  | QUOTE_IN_QUOTED_FIELD
  | EAT_CRNL.

#[global] Instance ParserState_eq_dec : EqDecision ParserState.
Proof. solve_decision. Defined.

Record Reader : Type := mkReader {
  state : ParserState;
  rfields : list string;   (* self->fields *)
  field : string           (* self->field, of length field_len *)
}.

Definition parse_reset : Reader := mkReader START_RECORD [] EmptyString.

Definition set_state (st : ParserState) (self : Reader) : Reader :=
  mkReader st (rfields self) (field self).

Definition parse_save_field (self : Reader) : Reader :=
  mkReader (state self) (rfields self ++ [field self]) EmptyString.

Definition parse_add_char (self : Reader) (c : ascii) : Reader :=
  mkReader (state self) (rfields self) (field self +:+ String c EmptyString).

Definition is_newline (c : ascii) : bool := (c =? LF)%char || (c =? CR)%char.

(** The state after a field that a line break or the end of the line
    closes. *)
Definition after_break (c : option ascii) : ParserState :=
  match c with
  | None => START_RECORD
  | Some _ => EAT_CRNL
  end.

Definition ends_line (c : option ascii) : bool :=
  match c with
  | None => true
  | Some ch => is_newline ch
  end.

Definition is_char (c : option ascii) (d : ascii) : bool :=
  match c with
  | Some ch => (ch =? d)%char
  | None => false
  end.

(** [case START_FIELD], which [case START_RECORD] falls through to. *)
Definition start_field (self : Reader) (c : option ascii) : Reader :=
  if ends_line c then set_state (after_break c) (parse_save_field self)
  else if is_char c quotechar then set_state IN_QUOTED_FIELD self
  else if is_char c delimiter then parse_save_field self
  else match c with
       | Some ch => set_state IN_FIELD (parse_add_char self ch)
       | None => self
       end.

Definition parse_process_char (self : Reader) (c : option ascii) : result Reader :=
  match state self with
  | START_RECORD =>
      match c with
      | None => Ok self
      | Some ch =>
          if is_newline ch then Ok (set_state EAT_CRNL self)
          else Ok (start_field (set_state START_FIELD self) c)
      end
  | START_FIELD => Ok (start_field self c)
  | IN_FIELD =>
      if ends_line c then Ok (set_state (after_break c) (parse_save_field self))
      else if is_char c delimiter then Ok (set_state START_FIELD (parse_save_field self))
      else match c with
           | Some ch => Ok (parse_add_char self ch)
           | None => Ok self
           end
  | IN_QUOTED_FIELD =>
      match c with
      | None => Ok self
      | Some ch =>
          if (ch =? quotechar)%char then Ok (set_state QUOTE_IN_QUOTED_FIELD self)
          else Ok (parse_add_char self ch)
      end
  | QUOTE_IN_QUOTED_FIELD =>
      match c with
      | Some ch =>
          if (ch =? quotechar)%char then Ok (set_state IN_QUOTED_FIELD (parse_add_char self ch))
          else if (ch =? delimiter)%char then Ok (set_state START_FIELD (parse_save_field self))
          else if is_newline ch then Ok (set_state EAT_CRNL (parse_save_field self))
          else Ok (set_state IN_FIELD (parse_add_char self ch))
      | None => Ok (set_state START_RECORD (parse_save_field self))
      end
  | EAT_CRNL =>
      match c with
      | None => Ok (set_state START_RECORD self)
      | Some ch => if is_newline ch then Ok self else Raise CsvError
      end
  end.

(** The characters of one line. *)
Fixpoint feed (self : Reader) (line : string) : result Reader :=
  match line with
  | EmptyString => Ok self
  | String c line' =>
      let* self := parse_process_char self (Some c) in
      feed self line'
  end.

(** End of input inside a record: a pending field is kept. *)
Definition at_end (self : Reader) : list (list string) :=
  if negb (String.length (field self) =? 0)%nat
     || bool_decide (state self = IN_QUOTED_FIELD)
  then [rfields (parse_save_field self)]
  else [].

(** [list(reader)]: [Reader_iternext] again and again. A record is complete
    when a line leaves the machine in [START_RECORD]; the next call starts
    from [parse_reset]. *)
Fixpoint read_records (self : Reader) (lines : list string) : result (list (list string)) :=
  match lines with
  | [] => Ok (at_end self)
  | line :: lines' =>
      let* self := feed self line in
      let* self := parse_process_char self None in
      if bool_decide (state self = START_RECORD) then
        let* records := read_records parse_reset lines' in
        Ok (rfields self :: records)
      else read_records self lines'
  end.

(** The lines of a text stream opened with [newline='']: a line ends after
    LF, or after a CR that no LF follows, and keeps its ending. [cur] is the
    line so far, [cr] tells that it ends in CR. *)
Fixpoint readlines_go (cur : string) (cr : bool) (s : string) : list string :=
  match s with
  | EmptyString =>
      match cur with
      | EmptyString => []
      | _ => [cur]
      end
  | String c s' =>
      if (c =? LF)%char then (cur +:+ String c EmptyString) :: readlines_go EmptyString false s'
      else if cr then cur :: readlines_go (String c EmptyString) (c =? CR)%char s'
      else readlines_go (cur +:+ String c EmptyString) (c =? CR)%char s'
  end.

Definition readlines (s : string) : list string := readlines_go EmptyString false s.

(** [list(csv.reader(f))] for the file text [s]. *)
Definition reader (s : string) : result (list (list string)) :=
  read_records parse_reset (readlines s).


End CsvReader.

(** ** Definitions for the statements and the proofs *)

(** The row of a record, once the Authors join has gone through. *)
Definition line_of (Authors : string) (rec : Element) : Line :=
  <["WorkType" := text_or_empty (find work_type_path rec)]>
  (<["Label" := text_or_empty (find label_path rec)]>
  (<["Volume" := Volume rec]>
  (<["Title" := text_or_empty (find title_path rec)]>
  (<["Journal" := text_or_empty (find journal_path rec)]>
  (<["PubDate" := text_or_empty (find pubDate_path rec)]>
  (<["Authors" := Authors]> ∅)))))).

(** The entry of a column in such a row. *)
Ltac line_lookup :=
  unfold line_of; repeat (rewrite lookup_insert_ne by done); apply lookup_insert_eq.

(** The single-valued columns with their paths, and the three components of
    the Volume column. *)
Definition single_valued (rec : Element) (line : Line)
  : list (list Step * option string) :=
  [(pubDate_path, line !! "PubDate");
   (journal_path, line !! "Journal");
   (title_path, line !! "Title");
   (label_path, line !! "Label");
   (work_type_path, line !! "WorkType");
   (vol_path, Some (volume rec));
   (num_path, Some (number rec));
   (pgs_path, Some (pages rec))].

(** The values of a row in the order of the columns. *)
Definition row_values (columns : list string) (line : Line) : list string :=
  map (fun key => default "" (line !! key)) columns.

(** The text of a table: its rows as [csv.writer] writes them. *)
Fixpoint write_rows (rows : list (list string)) : string :=
  match rows with
  | [] => ""
  | row :: rows' => Csv.writerow row +:+ write_rows rows'
  end.

(** The column order of the table in the data model section of the
    specification. *)
Definition table_order : list string :=
  ["Authors"; "PubDate"; "Journal"; "Title"; "Volume"; "Label"; "WorkType"].

Definition has_columns (line : Line) : Prop := dom line = list_to_set fields.

(** [open(path, 'w')] goes through. *)
Definition can_open_w (w : World) (path : string) : Prop :=
  match fs w !! path with
  | Some f => writable f = true
  | None => creatable w path = true
  end.

(** The header line with its line terminator. *)
Definition header_line : string :=
  "Authors,PubDate,Title,Journal,Volume,Label,WorkType" +:+ Csv.lineterminator.

(** The reader fused with the line iterator. *)

Module Fused.
Import Csv CsvReader.

(** The end of a line: the machine is told, and a record that is complete
    is handed out before [k] goes on with the rest. *)
Definition end_line (self : Reader) (k : Reader -> result (list (list string)))
  : result (list (list string)) :=
  let* self := parse_process_char self None in
  if bool_decide (state self = START_RECORD) then
    let* records := k parse_reset in
    Ok (rfields self :: records)
  else k self.

(** The reader run over the text itself, the splitting into lines done on
    the way: [self] has read the line so far, [mid] tells that this line is
    not empty and [cr] that it ends in CR. *)
Fixpoint run (self : Reader) (mid cr : bool) (s : string) : result (list (list string)) :=
  match s with
  | EmptyString =>
      if mid then end_line self (fun q => Ok (at_end q)) else Ok (at_end self)
  | String c s' =>
      if (c =? LF)%char then
        let* self := parse_process_char self (Some c) in
        end_line self (fun q => run q false false s')
      else if cr then
        end_line self (fun q =>
          let* q := parse_process_char q (Some c) in
          run q true (c =? CR)%char s')
      else
        let* self := parse_process_char self (Some c) in
        run self true (c =? CR)%char s'
  end.

Definition nonempty (s : string) : bool :=
  match s with
  | EmptyString => false
  | _ => true
  end.

(** The text of a field as [join_append_data] copies it, the separator
    left aside. *)
Definition field_text (f : string) : string :=
  opt_char (scan_field f false) quotechar +:+ copy_field f +:+
  opt_char (scan_field f false) quotechar.

(** The machine when the field has been read and before what ends it. *)
Inductive field_read (fs : list string) (f : string) : Reader -> Prop :=
  | read_empty : f = "" -> field_read fs f (mkReader START_FIELD fs "")
  | read_plain : field_read fs f (mkReader IN_FIELD fs f)
  | read_quoted : field_read fs f (mkReader QUOTE_IN_QUOTED_FIELD fs f).

(** The fields after the first, each behind its separator. *)
Fixpoint tail_text (row : list string) : string :=
  match row with
  | [] => ""
  | f :: row' => String delimiter (field_text f) +:+ tail_text row'
  end.

End Fused.

(** ** Sample documents and a sample world *)

(** A document whose only record has one author with an empty style leaf,
    as in [<author><style/></author>]. *)
Definition textless_author_record : Element :=
  Elem "record" None
    [Elem "contributors" None
       [Elem "authors" None
          [Elem "author" None [Elem "style" None []]]]].

Definition textless_author_doc : Element :=
  Elem "xml" None [Elem "records" None [textless_author_record]].

Definition volume_record : Element :=
  Elem "record" None
    [Elem "volume" None [Elem "style" (Some "3") []];
     Elem "number" None [Elem "style" (Some "2") []];
     Elem "pages" None [Elem "style" (Some "10-20") []]].

Definition two_authors_record : Element :=
  Elem "record" None
    [Elem "contributors" None
       [Elem "authors" None
          [Elem "author" None [Elem "style" (Some "Hicks, T.") []];
           Elem "author" None [Elem "style" (Some "Doe, J.") []]]]].

Definition journal_title_doc : Element :=
  Elem "xml" None
    [Elem "records" None
       [Elem "record" None
          [Elem "titles" None
             [Elem "title" None [Elem "style" (Some "T") []];
              Elem "secondary-title" None [Elem "style" (Some "J") []]]]]].

Definition quoted_values_doc : Element :=
  Elem "xml" None
    [Elem "records" None
       [Elem "record" None
          [Elem "contributors" None
             [Elem "authors" None
                [Elem "author" None [Elem "style" (Some "Hicks, T.") []];
                 Elem "author" None [Elem "style" (Some "Doe, J.") []]]];
           Elem "titles" None
             [Elem "title" None
                [Elem "style"
                   (Some ("On " +:+ String Csv.quotechar "ssx" +:+
                          String Csv.quotechar (String Csv.LF "a tool"))) []]]]]].

(** A parser that knows one document; any other text is malformed. *)
Definition sample_parse (s : string) : option Element :=
  if decide (s = "<xml><records/></xml>")
  then Some (Elem "xml" None [Elem "records" None []])
  else None.

Definition sample_world : World :=
  mkWorld
    (<["in.xml" := mkFile "<xml><records/></xml>" true true]>
       (<["bad.xml" := mkFile "<xml><records>" true true]>
          (<["out.csv" := mkFile "old" true true]> ∅)))
    (fun _ => true)
    [].


(** A parser that knows the document [quoted_values_doc], and a world with
    that document in a file. *)
Definition quoted_parse (s : string) : option Element :=
  if decide (s = "<quoted/>") then Some quoted_values_doc else None.

Definition quoted_world : World :=
  mkWorld (<["q.xml" := mkFile "<quoted/>" true true]> ∅) (fun _ => true) [].

(** The characters of the text are 7-bit: every encoding a text stream is
    opened with has them. *)
Definition seven_bit (s : string) : bool :=
  forallb (fun c => (nat_of_ascii c <? 128)%nat) (list_ascii_of_string s).

(** ** Definitions for the further properties *)

(** The tags a record's children are looked up by: the first tag of each
    of the ten paths of the loop body. *)
Definition looked_up_tags : list string :=
  ["contributors"; "dates"; "titles"; "volume"; "number"; "pages"; "label"; "work-type"].

Definition looked_up (e : Element) : Prop := tag e ∈ looked_up_tags.

(** The row whose seven values are all empty. *)
Definition empty_row : Line :=
  list_to_map (map (fun key => (key, "")) fields).

(** A document with the given children of its one [records] element. *)
Definition doc_of (recs : list Element) : Element :=
  Elem "xml" None [Elem "records" None recs].

(** The path to the author elements of a record. *)
Definition author_path : list Step :=
  [Self; Child "contributors"; Child "authors"; Child "author"].

(** The style texts of one author element. *)
Definition style_texts (author : Element) : list (option string) :=
  map text (filter (fun e => tag e = "style") (children author)).

(** The characters of a value that make the writer quote it. *)
Definition plain_char (c : ascii) : Prop :=
  c <> Csv.delimiter /\ c <> Csv.quotechar /\ c <> Csv.CR /\ c <> Csv.LF.

(** A value the writer copies as it is. *)
Definition plain_value (v : string) : Prop :=
  Forall plain_char (list_ascii_of_string v).

(** The keys of a row dict are among the fieldnames. *)
Definition known_columns (line : Line) : Prop :=
  dom line ⊆ list_to_set fields.

(** The readable flag of the file at a path once it has been opened for
    writing: kept when the file was there, set when it is created. *)
Definition readable_after (w : World) (filename : string) : bool :=
  match fs w !! filename with
  | Some f => readable f
  | None => true
  end.

Ltac looked_up_tag :=
  unfold looked_up_tags; repeat first [apply list_elem_of_here | apply list_elem_of_further].

(** * Properties *)

(** ** Strings *)

Lemma append_nil_r (s : string) : s +:+ EmptyString = s.
Proof. induction s as [|c s IH]; simpl; [done | by rewrite IH]. Qed.

Lemma append_assoc (s t u : string) : (s +:+ t) +:+ u = s +:+ (t +:+ u).
Proof. induction s as [|c s IH]; simpl; [done | by rewrite IH]. Qed.

Lemma append_length (s t : string) :
  String.length (s +:+ t) = String.length s + String.length t.
Proof. induction s as [|c s IH]; simpl; [done | by rewrite IH]. Qed.

Lemma length_zero_empty (s : string) : String.length s = 0 -> s = EmptyString.
Proof. by destruct s. Qed.

(** With LF for line separator the text stream stores the text as it is
    written. *)
Lemma text_mode_write_linesep (s : string) : text_mode_write linesep s = s.
Proof.
  induction s as [|c s IH]; simpl; [done|].
  destruct (c =? Csv.LF)%char eqn:Hc; [apply Ascii.eqb_eq in Hc as ->|]; by rewrite IH.
Qed.

#[local] Arguments text_mode_write : simpl never.

(** Leaving the [with] block, with LF for line separator. *)
Lemma close_with_linesep (filename : string) (written : string * option Exn) (w : World) :
  close_with filename written w =
  (match snd written with
   | None => Normal tt
   | Some e => Uncaught e
   end,
   set_file filename
     (mkFile (fst written)
        (readable (default (mkFile EmptyString true true) (fs w !! filename)))
        (writable (default (mkFile EmptyString true true) (fs w !! filename)))) w).
Proof.
  unfold close_with. cbv zeta. rewrite text_mode_write_linesep.
  by destruct (snd written).
Qed.

(** ** The extractor *)

Lemma expect_strs_Some (texts : list string) :
  expect_strs (map Some texts) = Ok texts.
Proof. induction texts as [|t texts IH]; simpl; [done | by rewrite IH]. Qed.

Lemma extract_line_Ok (rec : Element) (line : Line) :
  extract_line rec = Ok line ->
  exists Authors, join "; " (auths rec) = Ok Authors /\ line = line_of Authors rec.
Proof.
  unfold extract_line. destruct (join "; " (auths rec)) as [a|e]; simpl; [|done].
  intros [= <-]. by exists a.
Qed.

Lemma line_of_dom (Authors : string) (rec : Element) :
  dom (line_of Authors rec) = list_to_set fields.
Proof. unfold line_of, fields. rewrite !dom_insert_L. set_solver. Qed.

(** The loop appends the rows of the records, in their order. *)
Lemma extract_loop_Ok (recs : list Element) :
  forall lines out,
    extract_loop recs lines = Ok out ->
    exists rows,
      out = lines ++ rows /\
      Forall2 (fun rec line => extract_line rec = Ok line) recs rows.
Proof.
  induction recs as [|rec recs IH]; simpl; intros lines out H.
  - injection H as <-. exists []. by rewrite app_nil_r.
  - destruct (extract_line rec) as [line|e] eqn:Hl; simpl in H; [|done].
    apply IH in H as (rows & -> & HF).
    exists (line :: rows). split; [by rewrite <- app_assoc | by constructor].
Qed.

(** It goes through when every record's row does. *)
Lemma extract_loop_total (recs : list Element) :
  forall lines,
    Forall (fun rec => exists line, extract_line rec = Ok line) recs ->
    exists out, extract_loop recs lines = Ok out.
Proof.
  induction recs as [|rec recs IH]; simpl; intros lines HF.
  - by eexists.
  - inversion HF as [|? ? [line Hl] HF']; subst. rewrite Hl. simpl. by apply IH.
Qed.

Lemma expect_strs_total (items : list (option string)) :
  None ∉ items -> exists texts, items = map Some texts /\ expect_strs items = Ok texts.
Proof.
  induction items as [|[t|] items IH]; intros Hnone.
  - by exists [].
  - destruct IH as (texts & -> & Ht).
    + intros Hin. apply Hnone. by apply list_elem_of_further.
    + exists (t :: texts). split; [done|]. simpl. by rewrite Ht.
  - exfalso. apply Hnone. apply list_elem_of_here.
Qed.

(** The loop gets through a document whose author style leaves all have
    text. *)
Lemma extract_total (root : Element) :
  Forall (fun rec => None ∉ auths rec) (findall records_path root) ->
  exists lines, extract root = Ok lines.
Proof.
  intros HF. apply extract_loop_total. eapply Forall_impl; [exact HF|].
  intros rec Hnone. cbv beta in Hnone.
  destruct (expect_strs_total _ Hnone) as (texts & _ & Ht).
  unfold extract_line, join. rewrite Ht. by eexists.
Qed.

(** On documents the extractor gets through, the rows are those of the
    records, one for one and in document order. *)
Lemma extract_rows_in_order (root : Element) (lines : list Line) :
  extract root = Ok lines ->
  length lines = length (findall records_path root) /\
  forall i rec, findall records_path root !! i = Some rec ->
    exists line, lines !! i = Some line /\ extract_line rec = Ok line.
Proof.
  unfold extract. intros H. apply extract_loop_Ok in H as (rows & -> & HF).
  simpl. split.
  - symmetry. by eapply Forall2_length.
  - intros i rec Hi. destruct (Forall2_lookup_l _ _ _ _ _ HF Hi) as (line & ? & ?).
    by exists line.
Qed.

(** C1 (fails on the code): the row count equals the record count for every
    well-formed document. The document [textless_author_doc] has one record
    and the loop over the records ends in [TypeError], so no row at all is
    produced. *)
Theorem extract_textless_author_no_rows :
  length (findall records_path textless_author_doc) = 1 /\
  extract textless_author_doc = Raise TypeError.
Proof. split; reflexivity. Qed.

(** C2 (fails on the code): resolving the fields of a record never raises.
    The Authors join of a record whose author style leaf has no text is
    handed [None] and raises [TypeError]; the row is not built. *)
Theorem extract_line_textless_author_raises :
  auths textless_author_record = [None] /\
  join "; " (auths textless_author_record) = Raise TypeError /\
  extract_line textless_author_record = Raise TypeError.
Proof. repeat split; reflexivity. Qed.

(** ** The Volume column *)

Lemma format3_degenerate (a b c : string) :
  format3 a b c = "::" <-> a = "" /\ b = "" /\ c = "".
Proof.
  split.
  - intros H. assert (HL := f_equal String.length H).
    unfold format3 in HL. rewrite !append_length in HL. simpl in HL.
    assert (String.length a = 0 /\ String.length b = 0 /\ String.length c = 0)
      as (Ha & Hb & Hc) by lia.
    auto using length_zero_empty.
  - by intros (-> & -> & ->).
Qed.

(** C4: the Volume field of a record's row is
    [volume:number:pages] over the three independently resolved components,
    and the empty string when all three are empty; 3, 2, 10-20 give
    [3:2:10-20] and 3 alone gives [3::]. *)
Theorem Volume_field (rec : Element) (line : Line) :
  extract_line rec = Ok line ->
  line !! "Volume" =
    Some (if decide (volume rec = "" /\ number rec = "" /\ pages rec = "")
          then ""
          else volume rec +:+ ":" +:+ number rec +:+ ":" +:+ pages rec) /\
  (volume rec = "3" -> number rec = "2" -> pages rec = "10-20" ->
   line !! "Volume" = Some "3:2:10-20") /\
  (volume rec = "3" -> number rec = "" -> pages rec = "" ->
   line !! "Volume" = Some "3::").
Proof.
  intros H. apply extract_line_Ok in H as (a & _ & ->).
  assert (Hv : line_of a rec !! "Volume" = Some (Volume rec)) by line_lookup.
  rewrite Hv. unfold Volume, vol_ref.
  repeat split.
  - f_equal. destruct (decide _) as [Hd|Hd].
    + apply format3_degenerate in Hd. by rewrite bool_decide_eq_false_2 by auto.
    + rewrite bool_decide_eq_true_2; [done|]. by rewrite format3_degenerate.
  - by intros -> -> ->.
  - by intros -> -> ->.
Qed.

Lemma Volume_field_witness :
  extract_line volume_record = Ok (line_of "" volume_record) /\
  line_of "" volume_record !! "Volume" = Some "3:2:10-20".
Proof.
  split; [reflexivity|].
  apply (Volume_field volume_record (line_of "" volume_record)); reflexivity.
Defined.

(** ** The Authors column *)

(** C5: when every author style leaf has text, the Authors field is the
    texts of all [contributors/authors/author/style] nodes joined with
    [; ]: nothing for no author, the text itself for one author, [A; B] for
    two. *)
Theorem Authors_field (rec : Element) (texts : list string) :
  map text (findall authors_path rec) = map Some texts ->
  (exists line,
     extract_line rec = Ok line /\
     line !! "Authors" = Some (join_str "; " texts)) /\
  join_str "; " [] = "" /\
  (forall A, join_str "; " [A] = A) /\
  (forall A B, join_str "; " [A; B] = A +:+ "; " +:+ B).
Proof.
  intros H. repeat split; try done.
  exists (line_of (join_str "; " texts) rec). split.
  - unfold extract_line, join, auths. rewrite H, expect_strs_Some. reflexivity.
  - line_lookup.
Qed.

Lemma Authors_field_witness :
  exists line,
    extract_line two_authors_record = Ok line /\
    line !! "Authors" = Some "Hicks, T.; Doe, J.".
Proof.
  apply (Authors_field two_authors_record ["Hicks, T."; "Doe, J."]). reflexivity.
Defined.

(** ** The single-valued columns *)

Lemma text_or_empty_text (x : option Element) (node : Element) (t : string) :
  x = Some node -> text node = Some t -> text_or_empty x = t.
Proof. intros -> H. simpl. by rewrite H. Qed.

Lemma text_or_empty_absent (x : option Element) :
  x = None \/ (exists node, x = Some node /\ (text node = None \/ text node = Some "")) ->
  text_or_empty x = "".
Proof.
  intros [->|(node & -> & [H|H])]; simpl; [done | by rewrite H | by rewrite H].
Qed.

(** C6: a single-valued field is the text of the node its path resolves to
    when that node has non-empty text, and the empty string otherwise, be
    the node missing or its text absent; without [dates/year/style] the
    PubDate is empty. *)
Theorem single_valued_field (rec : Element) (line : Line) :
  extract_line rec = Ok line ->
  (forall path value, (path, value) ∈ single_valued rec line ->
     (forall node t, find path rec = Some node -> text node = Some t -> t <> "" ->
        value = Some t) /\
     (find path rec = None \/
      (exists node, find path rec = Some node /\
                    (text node = None \/ text node = Some "")) ->
      value = Some "")) /\
  (find pubDate_path rec = None -> line !! "PubDate" = Some "").
Proof.
  intros H. apply extract_line_Ok in H as (a & _ & ->).
  assert (HP : line_of a rec !! "PubDate" = Some (text_or_empty (find pubDate_path rec)))
    by line_lookup.
  assert (HJ : line_of a rec !! "Journal" = Some (text_or_empty (find journal_path rec)))
    by line_lookup.
  assert (HT : line_of a rec !! "Title" = Some (text_or_empty (find title_path rec)))
    by line_lookup.
  assert (HL : line_of a rec !! "Label" = Some (text_or_empty (find label_path rec)))
    by line_lookup.
  assert (HW : line_of a rec !! "WorkType" = Some (text_or_empty (find work_type_path rec)))
    by line_lookup.
  split.
  - intros path value Hin.
    assert (Hv : value = Some (text_or_empty (find path rec))).
    { unfold single_valued in Hin. rewrite HP, HJ, HT, HL, HW in Hin.
      repeat (apply elem_of_cons in Hin as [[= -> ->]|Hin]; [done|]).
      by apply elem_of_nil in Hin. }
    subst value. split.
    + intros node t Hf Ht _. f_equal. by eapply text_or_empty_text.
    + intros Habs. f_equal. by apply text_or_empty_absent.
  - intros Hnone. rewrite HP, Hnone. reflexivity.
Qed.

Lemma single_valued_field_witness :
  line_of "" volume_record !! "PubDate" = Some "".
Proof.
  apply (single_valued_field volume_record (line_of "" volume_record));
    reflexivity.
Defined.

(** ** The written table *)

Lemma dict_to_list_columns (line : Line) :
  has_columns line -> dict_to_list fields line = Ok (row_values fields line).
Proof.
  intros H. unfold dict_to_list. rewrite H.
  rewrite bool_decide_eq_false_2; [done|]. intros Hne. apply Hne. set_solver.
Qed.

Lemma writerows_columns (lines : list Line) :
  forall csvfile,
    Forall has_columns lines ->
    writerows fields lines csvfile =
      (csvfile +:+ write_rows (map (row_values fields) lines), None).
Proof.
  induction lines as [|line lines IH]; intros csvfile HF; simpl.
  - by rewrite append_nil_r.
  - inversion HF; subst. unfold dict_writerow.
    rewrite dict_to_list_columns by done. simpl.
    rewrite IH by done. by rewrite append_assoc.
Qed.

Lemma csv_text_columns (lines : list Line) :
  Forall has_columns lines ->
  csv_text lines = (write_rows (fields :: map (row_values fields) lines), None).
Proof.
  intros HF. unfold csv_text.
  assert (Hh : writeheader fields "" = Ok (Csv.writerow fields)) by reflexivity.
  rewrite Hh. by rewrite writerows_columns.
Qed.

Lemma extract_has_columns (root : Element) (lines : list Line) :
  extract root = Ok lines -> Forall has_columns lines.
Proof.
  unfold extract. intros H. apply extract_loop_Ok in H as (rows & -> & HF).
  simpl. induction HF as [|rec line recs rows Hl _ IH]; constructor; [|done].
  apply extract_line_Ok in Hl as (a & _ & ->). apply line_of_dom.
Qed.

(** C3 as stated fails: for [journal_title_doc] the written table is not the
    one with the columns in [table_order] (Journal before Title). *)
Lemma table_order_counterexample :
  exists lines,
    extract journal_title_doc = Ok lines /\
    fst (csv_text lines) <> write_rows (table_order :: map (row_values table_order) lines).
Proof.
  eexists. split; [reflexivity|]. vm_compute. discriminate.
Qed.

(** C3, amended: the header and the values of every row are written in the
    order Authors, PubDate, Title, Journal, Volume, Label, WorkType (Title
    before Journal), for every document the extractor gets through. *)
Theorem written_column_order (root : Element) (lines : list Line) :
  extract root = Ok lines ->
  csv_text lines =
    (write_rows
       (["Authors"; "PubDate"; "Title"; "Journal"; "Volume"; "Label"; "WorkType"] ::
        map (fun line : Line =>
               [default "" (line !! "Authors"); default "" (line !! "PubDate");
                default "" (line !! "Title"); default "" (line !! "Journal");
                default "" (line !! "Volume"); default "" (line !! "Label");
                default "" (line !! "WorkType")]) lines),
     None).
Proof.
  intros H. apply extract_has_columns in H. by rewrite csv_text_columns.
Qed.

Lemma written_column_order_witness :
  csv_text [line_of "" (Elem "record" None
                           [Elem "titles" None
                              [Elem "title" None [Elem "style" (Some "T") []];
                               Elem "secondary-title" None [Elem "style" (Some "J") []]]])] =
    (write_rows [["Authors"; "PubDate"; "Title"; "Journal"; "Volume"; "Label"; "WorkType"];
                 [""; ""; "T"; "J"; ""; ""; ""]], None).
Proof.
  apply (written_column_order journal_title_doc). reflexivity.
Defined.

(** ** The process *)

Section Process.

Variable xml_parse : string -> option Element.

Lemma readable_file_path_true (w : World) (input_file : string) :
  readable_file_path w input_file = true ->
  exists f, fs w !! input_file = Some f /\ readable f = true.
Proof.
  unfold readable_file_path, isfile, access_R_OK.
  destruct (fs w !! input_file) as [f|]; rewrite !andb_true_iff.
  - intros (_ & Hr). by exists f.
  - by intros (_ & ?).
Qed.

Lemma readable_file_path_false (w : World) (input_file : string) :
  ~ (exists f, fs w !! input_file = Some f /\ readable f = true) ->
  readable_file_path w input_file = false.
Proof.
  intros Hno. unfold readable_file_path, isfile, access_R_OK.
  destruct (fs w !! input_file) as [f|].
  - destruct (readable f) eqn:Hr; [|by rewrite andb_false_r].
    exfalso. apply Hno. by exists f.
  - by rewrite andb_false_r.
Qed.

Lemma save_to_CSV_columns (lines : list Line) (filename : string) (w : World) :
  Forall has_columns lines ->
  can_open_w w filename ->
  exists w',
    save_to_CSV lines filename w = (Normal tt, w') /\
    content <$> fs w' !! filename =
      Some (write_rows (fields :: map (row_values fields) lines)) /\
    (forall path, path <> filename -> fs w' !! path = fs w !! path) /\
    log w' = log w ++ [OpenWrite filename].
Proof.
  intros HF Hopen. unfold save_to_CSV, bindP, open_w, can_open_w in *. simpl.
  rewrite csv_text_columns by done.
  destruct (fs w !! filename) as [f|]; rewrite Hopen; simpl; rewrite close_with_linesep;
    (eexists; split; [reflexivity|]; simpl; split; [|split; [|done]]).
  - by rewrite !lookup_insert_eq.
  - intros path Hne. by rewrite !lookup_insert_ne.
  - by rewrite !lookup_insert_eq.
  - intros path Hne. by rewrite !lookup_insert_ne.
Qed.

Lemma can_open_w_dec (w : World) (path : string) :
  can_open_w w path \/ ~ can_open_w w path.
Proof.
  unfold can_open_w. destruct (fs w !! path) as [f|].
  - destruct (writable f); [by left | by right].
  - destruct (creatable w path); [by left | by right].
Qed.

Lemma save_to_CSV_refused (lines : list Line) (filename : string) (w : World) :
  ~ can_open_w w filename ->
  save_to_CSV lines filename w = (Uncaught OSError, emit (OpenWrite filename) w).
Proof.
  intros Hno. unfold save_to_CSV, bindP, open_w, can_open_w in *.
  cbn [emit fs creatable].
  destruct (fs w !! filename) as [f|].
  - destruct (writable f); [by destruct Hno | done].
  - destruct (creatable w filename); [by destruct Hno | done].
Qed.

(** What [main] does once the input file has passed the check. *)
Lemma main_checked (input_file output_file : string) (w : World) (f : File) :
  readable_file_path w input_file = true ->
  fs w !! input_file = Some f ->
  main xml_parse input_file output_file w =
    let w1 := emit (XmlParse input_file) w in
    match xml_parse (content f) with
    | Some root =>
        match extract root with
        | Ok lines => save_to_CSV lines output_file w1
        | Raise e => (Uncaught e, w1)
        end
    | None => (Uncaught ParseError, w1)
    end.
Proof.
  intros Hr Hf. destruct (readable_file_path_true _ _ Hr) as (f' & Hf' & Hrf).
  assert (f' = f) as -> by congruence.
  unfold main, bindP, check_input_file, read_xml, extract_rows. rewrite Hr. simpl.
  rewrite Hf, Hrf. destruct (xml_parse (content f)) as [root|]; [|done].
  by destruct (extract root).
Qed.

(** C7: for a well-formed document without any [records/record] node the
    program ends normally and the output file holds the header line
    [Authors,PubDate,Title,Journal,Volume,Label,WorkType] and nothing
    else. *)
Theorem zero_records_header_only
    (input_file output_file : string) (w : World) (f : File) (root : Element) :
  readable_file_path w input_file = true ->
  fs w !! input_file = Some f ->
  xml_parse (content f) = Some root ->
  findall records_path root = [] ->
  can_open_w w output_file ->
  exists w',
    main xml_parse input_file output_file w = (Normal tt, w') /\
    content <$> fs w' !! output_file = Some header_line.
Proof.
  intros Hr Hf Hp Hrecs Hopen.
  rewrite (main_checked _ _ _ _ Hr Hf), Hp. unfold extract. rewrite Hrecs. simpl.
  destruct (save_to_CSV_columns [] output_file (emit (XmlParse input_file) w))
    as (w' & Hs & Hc & _); [constructor | exact Hopen |].
  exists w'. split; [exact Hs|]. rewrite Hc. reflexivity.
Qed.

(** C9: when the input path names no existing readable file the process
    exits with status 20; the parser has not been called, no file has been
    opened for writing, and the file system is as it was. *)
Theorem unreadable_input_exits_20 (input_file output_file : string) (w : World) :
  ~ (exists f, fs w !! input_file = Some f /\ readable f = true) ->
  exists w' msg,
    main xml_parse input_file output_file w = (SystemExit 20, w') /\
    exit_status (fst (main xml_parse input_file output_file w)) = 20%Z /\
    fs w' = fs w /\
    log w' = log w ++ [Stderr msg].
Proof.
  intros Hno. apply readable_file_path_false in Hno.
  unfold main, bindP, check_input_file. rewrite Hno. simpl.
  by do 2 eexists.
Qed.

(** C10: when the input document is malformed or the extraction raises, the
    run ends in that exception with the file system unchanged, a file at
    the output path included; the output path has not been opened. *)
Theorem failure_leaves_output_alone
    (input_file output_file : string) (w : World) (f : File) :
  readable_file_path w input_file = true ->
  fs w !! input_file = Some f ->
  xml_parse (content f) = None \/
  (exists root e, xml_parse (content f) = Some root /\ extract root = Raise e) ->
  exists e w',
    main xml_parse input_file output_file w = (Uncaught e, w') /\
    fs w' = fs w /\
    log w' = log w ++ [XmlParse input_file].
Proof.
  intros Hr Hf Hfail. rewrite (main_checked _ _ _ _ Hr Hf).
  destruct Hfail as [Hp|(root & e & Hp & He)]; rewrite Hp; [|rewrite He];
    by do 2 eexists.
Qed.

(** The output path is opened only once the document has been parsed and
    all its rows extracted. *)
Lemma open_after_extraction
    (input_file output_file : string) (w w' : World) (c : Completion unit) :
  main xml_parse input_file output_file w = (c, w') ->
  (exists path, OpenWrite path ∈ drop (length (log w)) (log w')) ->
  exists f root lines,
    fs w !! input_file = Some f /\
    xml_parse (content f) = Some root /\
    extract root = Ok lines.
Proof.
  intros Hm (path & Hin).
  destruct (readable_file_path w input_file) eqn:Hr.
  - destruct (readable_file_path_true _ _ Hr) as (f & Hf & _).
    rewrite (main_checked _ _ _ _ Hr Hf) in Hm. simpl in Hm.
    exists f. destruct (xml_parse (content f)) as [root|].
    + exists root. destruct (extract root) as [lines|e]; [by exists lines|].
      injection Hm as <- <-. simpl in Hin. rewrite drop_app_length in Hin.
      apply list_elem_of_singleton in Hin. discriminate.
    + injection Hm as <- <-. simpl in Hin. rewrite drop_app_length in Hin.
      apply list_elem_of_singleton in Hin. discriminate.
  - unfold main, bindP, check_input_file in Hm. rewrite Hr in Hm. simpl in Hm.
    injection Hm as <- <-. simpl in Hin. rewrite drop_app_length in Hin.
    apply list_elem_of_singleton in Hin. discriminate.
Qed.

End Process.

Lemma zero_records_header_only_witness :
  exists w',
    main sample_parse "in.xml" "new.csv" sample_world = (Normal tt, w') /\
    content <$> fs w' !! "new.csv" = Some header_line.
Proof.
  apply (zero_records_header_only sample_parse "in.xml" "new.csv" sample_world
           (mkFile "<xml><records/></xml>" true true)
           (Elem "xml" None [Elem "records" None []]));
    vm_compute; reflexivity.
Defined.

Lemma unreadable_input_exits_20_witness :
  exists w' msg,
    main sample_parse "missing.xml" "out.csv" sample_world = (SystemExit 20, w') /\
    exit_status (fst (main sample_parse "missing.xml" "out.csv" sample_world)) = 20%Z /\
    fs w' = fs sample_world /\
    log w' = log sample_world ++ [Stderr msg].
Proof.
  apply (unreadable_input_exits_20 sample_parse "missing.xml" "out.csv" sample_world).
  intros (f & Hf & _). vm_compute in Hf. discriminate.
Defined.

Lemma failure_leaves_output_alone_witness :
  exists e w',
    main sample_parse "bad.xml" "out.csv" sample_world = (Uncaught e, w') /\
    fs w' = fs sample_world /\
    log w' = log sample_world ++ [XmlParse "bad.xml"].
Proof.
  apply (failure_leaves_output_alone sample_parse "bad.xml" "out.csv" sample_world
           (mkFile "<xml><records>" true true)).
  - vm_compute; reflexivity.
  - vm_compute; reflexivity.
  - left. vm_compute; reflexivity.
Defined.

(** ** Reading the written table back *)

Module RoundTrip.
Import Csv CsvReader Fused.

Lemma bind_assoc {A B C} (r : result A) (f : A -> result B) (g : B -> result C) :
  bind (bind r f) g = bind r (fun a => bind (f a) g).
Proof. by destruct r. Qed.

Lemma feed_snoc (line : string) (c : ascii) :
  forall self,
    feed self (line +:+ String c "") =
    let* self := feed self line in parse_process_char self (Some c).
Proof.
  induction line as [|d line IH]; intros self; simpl.
  - by destruct (parse_process_char self (Some c)).
  - destruct (parse_process_char self (Some d)); simpl; [apply IH | done].
Qed.

Lemma feed_one {A} (self : Reader) (c : ascii) (k : Reader -> result A) :
  bind (feed self (String c "")) k = bind (parse_process_char self (Some c)) k.
Proof. simpl. by destruct (parse_process_char self (Some c)). Qed.

Lemma nonempty_snoc (s : string) (c : ascii) : nonempty (s +:+ String c "") = true.
Proof. by destruct s. Qed.

(** The two ways of running the reader agree. *)
Lemma read_records_run (s : string) :
  forall self cur cr,
    read_records self (readlines_go cur cr s) =
    let* self := feed self cur in run self (nonempty cur) cr s.
Proof.
  induction s as [|c s IH]; intros self cur cr.
  - destruct cur as [|d cur]; [done|].
    cbn [readlines_go read_records nonempty run].
    destruct (feed self (String d cur)) as [p|]; [|done].
    cbn [bind]. unfold end_line.
    destruct (parse_process_char p None) as [p'|]; [|done].
    cbn [bind]. by destruct (bool_decide _).
  - cbn [readlines_go run]. destruct (c =? LF)%char.
    + cbn [read_records]. rewrite feed_snoc, bind_assoc.
      destruct (feed self cur) as [p|]; [|done]. cbn [bind].
      destruct (parse_process_char p (Some c)) as [p1|]; [|done]. cbn [bind].
      unfold end_line.
      destruct (parse_process_char p1 None) as [p2|]; [|done]. cbn [bind].
      rewrite !IH. reflexivity.
    + destruct cr.
      * cbn [read_records].
        destruct (feed self cur) as [p|]; [|done]. cbn [bind].
        unfold end_line.
        destruct (parse_process_char p None) as [p2|]; [|done]. cbn [bind].
        rewrite !IH, !feed_one. reflexivity.
      * rewrite IH, feed_snoc, bind_assoc, nonempty_snoc.
        by destruct (feed self cur).
Qed.

Lemma reader_run (s : string) : reader s = run parse_reset false false s.
Proof. unfold reader, readlines. by rewrite read_records_run. Qed.

(** *** Characters *)

Lemma special_false (c : ascii) :
  special c = false ->
  (c =? delimiter)%char = false /\ (c =? quotechar)%char = false /\
  (c =? CR)%char = false /\ (c =? LF)%char = false.
Proof.
  unfold special, lineterminator. cbn [find_char].
  rewrite !orb_false_iff. tauto.
Qed.

Lemma scan_field_or (f : string) :
  forall q, scan_field f q = q || scan_field f false.
Proof.
  induction f as [|c f IH]; intros q; simpl.
  - by rewrite orb_false_r.
  - rewrite (IH (q || special c)), (IH (special c)). by rewrite orb_assoc.
Qed.

Lemma scan_field_cons (c : ascii) (f : string) :
  scan_field (String c f) false = special c || scan_field f false.
Proof. simpl. apply scan_field_or. Qed.

(** *** The machine on the characters of a field *)

Lemma run_plain (self : Reader) (mid : bool) (c : ascii) (s : string) :
  (c =? LF)%char = false ->
  run self mid false (String c s) =
  let* self := parse_process_char self (Some c) in run self true (c =? CR)%char s.
Proof. intros H. cbn [run]. by rewrite H. Qed.

Lemma run_LF (self : Reader) (mid cr : bool) (s : string) :
  run self mid cr (String LF s) =
  let* self := parse_process_char self (Some LF) in
  end_line self (fun q => run q false false s).
Proof. reflexivity. Qed.

Lemma run_after_cr (self : Reader) (mid : bool) (c : ascii) (s : string) :
  (c =? LF)%char = false ->
  run self mid true (String c s) =
  end_line self (fun q =>
    let* q := parse_process_char q (Some c) in run q true (c =? CR)%char s).
Proof. intros H. cbn [run]. by rewrite H. Qed.

(** Inside quotes the end of a line changes nothing. *)
Lemma end_line_quoted (fs : list string) (b : string)
    (k : Reader -> result (list (list string))) :
  end_line (mkReader IN_QUOTED_FIELD fs b) k = k (mkReader IN_QUOTED_FIELD fs b).
Proof. reflexivity. Qed.

(** An unquoted field, character by character. *)
Lemma run_in_field (f : string) :
  forall fs b rest,
    scan_field f false = false ->
    run (mkReader IN_FIELD fs b) true false (f +:+ rest) =
    run (mkReader IN_FIELD fs (b +:+ f)) true false rest.
Proof.
  induction f as [|c f IH]; intros fs b rest Hs.
  - by rewrite append_nil_r.
  - rewrite scan_field_cons in Hs. apply orb_false_iff in Hs as [Hc Hs].
    destruct (special_false c Hc) as (Hd & Hq & Hcr & Hlf).
    cbn [String.append]. rewrite run_plain by done.
    unfold parse_process_char. cbn [state ends_line is_char]. unfold is_newline.
    rewrite Hlf, Hcr, Hd. cbn [orb bind].
    unfold parse_add_char. cbn [state rfields field].
    rewrite IH by done. by rewrite append_assoc.
Qed.

(** The inside of a quoted field up to the closing quote. *)
Lemma run_in_quoted_field (f : string) :
  forall fs b mid cr rest,
    run (mkReader IN_QUOTED_FIELD fs b) mid cr (copy_field f +:+ String quotechar rest) =
    run (mkReader QUOTE_IN_QUOTED_FIELD fs (b +:+ f)) true false rest.
Proof.
  induction f as [|c f IH]; intros fs b mid cr rest.
  - rewrite append_nil_r. cbn [copy_field String.append].
    destruct cr; [rewrite run_after_cr, end_line_quoted by done | rewrite run_plain by done];
      reflexivity.
  - cbn [copy_field]. destruct (c =? quotechar)%char eqn:Hq.
    + apply Ascii.eqb_eq in Hq as ->. cbn [String.append].
      assert (Hstep : forall mid cr s,
                run (mkReader IN_QUOTED_FIELD fs b) mid cr (String quotechar s) =
                run (mkReader QUOTE_IN_QUOTED_FIELD fs b) true false s).
      { intros mid' [|] s;
          [rewrite run_after_cr, end_line_quoted by done | rewrite run_plain by done];
          reflexivity. }
      rewrite Hstep, run_plain by done.
      unfold parse_process_char. cbn [state]. rewrite Ascii.eqb_refl.
      unfold parse_add_char, set_state. cbn [state rfields field bind].
      rewrite IH. by rewrite append_assoc.
    + destruct (c =? LF)%char eqn:Hlf.
      * apply Ascii.eqb_eq in Hlf as ->. cbn [String.append]. rewrite run_LF.
        unfold parse_process_char. cbn [state]. rewrite Hq.
        unfold parse_add_char. cbn [state rfields field bind].
        rewrite end_line_quoted, IH. by rewrite append_assoc.
      * cbn [String.append].
        assert (Hstep : forall mid cr s,
                  run (mkReader IN_QUOTED_FIELD fs b) mid cr (String c s) =
                  run (mkReader IN_QUOTED_FIELD fs (b +:+ String c "")) true
                      (c =? CR)%char s).
        { intros mid' [|] s;
            [rewrite run_after_cr, end_line_quoted by done | rewrite run_plain by done];
            unfold parse_process_char; cbn [state]; rewrite Hq; reflexivity. }
        rewrite Hstep, IH. by rewrite append_assoc.
Qed.

(** *** A field and what ends it *)

Lemma copy_field_plain (f : string) : scan_field f false = false -> copy_field f = f.
Proof.
  induction f as [|c f IH]; [done|].
  rewrite scan_field_cons. intros [Hc Hs]%orb_false_iff.
  destruct (special_false c Hc) as (_ & Hq & _). simpl. rewrite Hq. by rewrite IH.
Qed.

Lemma run_field (f : string) (fs : list string) (mid : bool) (t : ascii) (rest : string) :
  (t =? LF)%char = false ->
  exists self,
    field_read fs f self /\
    run (mkReader START_FIELD fs "") mid false (field_text f +:+ String t rest) =
    run self true false (String t rest).
Proof.
  intros Ht. unfold field_text. destruct (scan_field f false) eqn:Hs.
  - exists (mkReader QUOTE_IN_QUOTED_FIELD fs f). split; [constructor|].
    cbn [opt_char String.append]. rewrite run_plain by done.
    rewrite append_assoc. cbn [String.append].
    change (parse_process_char (mkReader START_FIELD fs "") (Some quotechar))
      with (Ok (mkReader IN_QUOTED_FIELD fs "")).
    cbn [bind]. by rewrite run_in_quoted_field.
  - cbn [opt_char String.append]. rewrite append_nil_r, copy_field_plain by done.
    destruct f as [|c f].
    + exists (mkReader START_FIELD fs ""). split; [by constructor|].
      cbn [String.append run]. by rewrite Ht.
    + exists (mkReader IN_FIELD fs (String c f)). split; [constructor|].
      rewrite scan_field_cons in Hs. apply orb_false_iff in Hs as [Hc Hs].
      destruct (special_false c Hc) as (Hd & Hq & Hcr & Hlf).
      cbn [String.append]. rewrite run_plain by done.
      unfold parse_process_char, start_field.
      cbn [state ends_line is_char]. unfold is_newline.
      rewrite Hlf, Hcr, Hd, Hq. cbn [orb bind].
      unfold parse_add_char, set_state. cbn [state rfields field String.append].
      by rewrite run_in_field.
Qed.

(** The separator after a field. *)
Lemma run_delimiter (fs : list string) (f : string) (self : Reader) (rest : string) :
  field_read fs f self ->
  run self true false (String delimiter rest) =
  run (mkReader START_FIELD (fs ++ [f]) "") true false rest.
Proof. intros [->| |]; reflexivity. Qed.

(** The line terminator after a field: the record is complete. *)
Lemma run_lineterminator (fs : list string) (f : string) (self : Reader) (rest : string) :
  field_read fs f self ->
  run self true false (lineterminator +:+ rest) =
  let* records := run parse_reset false false rest in
  Ok ((fs ++ [f]) :: records).
Proof. intros [->| |]; reflexivity. Qed.

(** *** A record *)

Lemma join_append_data_first (f : string) :
  join_append_data 0 f (scan_field f false) = field_text f.
Proof. reflexivity. Qed.

Lemma join_append_data_next (n : nat) (f : string) :
  join_append_data (S n) f (scan_field f false) = String delimiter (field_text f).
Proof. reflexivity. Qed.

Lemma join_fields_next (row : list string) :
  forall rec n,
    join_fields rec (S n) row = (rec +:+ tail_text row, S n + length row).
Proof.
  induction row as [|f row IH]; intros rec n; cbn [join_fields tail_text].
  - rewrite append_nil_r. f_equal. simpl. lia.
  - unfold join_append. rewrite join_append_data_next, IH, append_assoc.
    f_equal. simpl. lia.
Qed.

Lemma join_fields_first (f : string) (row : list string) :
  join_fields "" 0 (f :: row) = (field_text f +:+ tail_text row, S (length row)).
Proof.
  cbn [join_fields]. unfold join_append.
  rewrite join_append_data_first, join_fields_next. reflexivity.
Qed.

Lemma run_fields (row : list string) :
  forall fs f mid rest,
    run (mkReader START_FIELD fs "") mid false
        (field_text f +:+ tail_text row +:+ lineterminator +:+ rest) =
    let* records := run parse_reset false false rest in
    Ok ((fs ++ f :: row) :: records).
Proof.
  induction row as [|g row IH]; intros fs f mid rest.
  - cbn [tail_text String.append].
    change (lineterminator +:+ rest) with (String CR (String LF rest)).
    destruct (run_field f fs mid CR (String LF rest)) as (self & Hr & ->); [done|].
    apply (run_lineterminator _ _ _ _ Hr).
  - cbn [tail_text]. rewrite append_assoc. cbn [String.append].
    destruct (run_field f fs mid delimiter
                (field_text g +:+ tail_text row +:+ lineterminator +:+ rest))
      as (self & Hr & ->); [done|].
    rewrite (run_delimiter _ _ _ _ Hr), IH.
    by rewrite <- app_assoc.
Qed.

Lemma append_empty (s t : string) : s +:+ t = "" -> s = "" /\ t = "".
Proof. destruct s; [done | discriminate]. Qed.

Lemma field_text_empty (f : string) : field_text f = "" -> f = "".
Proof.
  unfold field_text. destruct (scan_field f false); [discriminate|].
  destruct f as [|c f]; [done|]. cbn [opt_char String.append copy_field].
  destruct (c =? quotechar)%char; discriminate.
Qed.

Lemma tail_text_empty (row : list string) : tail_text row = "" -> row = [].
Proof. destruct row; [done | discriminate]. Qed.

(** A record's text does not begin with a line break. *)
Lemma record_text_first (f : string) (row : list string) (c : ascii) (s : string) :
  field_text f +:+ tail_text row = String c s -> is_newline c = false.
Proof.
  unfold field_text. destruct (scan_field f false) eqn:Hs.
  - cbn [opt_char String.append]. by intros [= <- _].
  - cbn [opt_char String.append]. rewrite append_nil_r, copy_field_plain by done.
    destruct f as [|d f].
    + destruct row as [|g row]; [discriminate|].
      cbn [tail_text String.append]. by intros [= <- _].
    + rewrite scan_field_cons in Hs. apply orb_false_iff in Hs as [Hd _].
      destruct (special_false d Hd) as (_ & _ & Hcr & Hlf).
      cbn [String.append]. intros [= <- _]. unfold is_newline. by rewrite Hlf, Hcr.
Qed.

(** At such a character the start of a record is the start of a field. *)
Lemma run_start_record (mid : bool) (c : ascii) (s : string) :
  is_newline c = false ->
  run parse_reset mid false (String c s) =
  run (mkReader START_FIELD [] "") mid false (String c s).
Proof.
  intros Hnl. assert (Hlf : (c =? LF)%char = false).
  { unfold is_newline in Hnl. by apply orb_false_iff in Hnl as [? _]. }
  rewrite !run_plain by done.
  unfold parse_process_char. cbn [state parse_reset]. by rewrite Hnl.
Qed.

(** One written record is read back as it was, whatever follows. *)
Lemma run_writerow (row : list string) (rest : string) :
  run parse_reset false false (writerow row +:+ rest) =
  let* records := run parse_reset false false rest in
  Ok (row :: records).
Proof.
  destruct row as [|f row]; [reflexivity|].
  unfold writerow. rewrite join_fields_first.
  destruct (field_text f +:+ tail_text row) as [|c s] eqn:HT.
  - apply append_empty in HT as [Hf Hrow].
    apply field_text_empty in Hf as ->. apply tail_text_empty in Hrow as ->.
    reflexivity.
  - cbn [String.length Nat.eqb andb]. rewrite andb_false_r.
    rewrite append_assoc. cbn [String.append].
    rewrite run_start_record by (by eapply record_text_first).
    change (String c (s +:+ lineterminator +:+ rest))
      with (String c s +:+ lineterminator +:+ rest).
    rewrite <- HT, append_assoc. apply (run_fields row [] f).
Qed.

(** The written table is read back as it was. *)
Lemma reader_write_rows (rows : list (list string)) :
  reader (write_rows rows) = Ok rows.
Proof.
  rewrite reader_run. induction rows as [|row rows IH]; [reflexivity|].
  cbn [write_rows]. by rewrite run_writerow, IH.
Qed.

(** [dict(zip(columns, values))] of a row's values is the row. *)
Lemma lookup_zip_row_values (columns : list string) (line : Line) (key : string) :
  (list_to_map (zip columns (row_values columns line)) : Line) !! key =
  if decide (key ∈ columns) then Some (default "" (line !! key)) else None.
Proof.
  unfold row_values. induction columns as [|k columns IH]; cbn [map zip zip_with].
  - rewrite list_to_map_nil, lookup_empty. by rewrite decide_False by apply not_elem_of_nil.
  - rewrite list_to_map_cons. destruct (decide (k = key)) as [->|Hne].
    + rewrite lookup_insert_eq. by rewrite decide_True by apply list_elem_of_here.
    + rewrite lookup_insert_ne by done. rewrite IH.
      destruct (decide (key ∈ columns)) as [Hin|Hin].
      * by rewrite decide_True by (by apply list_elem_of_further).
      * rewrite decide_False; [done|]. intros [?|?]%elem_of_cons; congruence.
Qed.

Lemma zip_row_values (line : Line) :
  has_columns line ->
  list_to_map (zip fields (row_values fields line)) = line.
Proof.
  intros Hcols. apply map_eq. intros key. rewrite lookup_zip_row_values.
  destruct (decide (key ∈ fields)) as [Hin|Hin].
  - assert (Hd : key ∈ dom line) by (rewrite Hcols; by apply elem_of_list_to_set).
    apply elem_of_dom in Hd as [v Hv]. by rewrite Hv.
  - symmetry. apply not_elem_of_dom. rewrite Hcols. by rewrite elem_of_list_to_set.
Qed.

End RoundTrip.




(** * Further properties *)

(** ** Path lookups *)

Lemma select_app (s : Step) (l1 l2 : list Element) :
  select s (l1 ++ l2) = select s l1 ++ select s l2.
Proof. destruct s; simpl; [done|]. unfold select_child. apply flat_map_app. Qed.

Lemma select_path_app (path : list Step) :
  forall l1 l2,
    fold_left (fun result s => select s result) path (l1 ++ l2) =
    fold_left (fun result s => select s result) path l1 ++
    fold_left (fun result s => select s result) path l2.
Proof.
  induction path as [|s path IH]; intros l1 l2; simpl; [done|].
  by rewrite select_app, IH.
Qed.

Lemma select_path_flat_map (path : list Step) (l : list Element) :
  fold_left (fun result s => select s result) path l =
  flat_map (fun e => fold_left (fun result s => select s result) path [e]) l.
Proof.
  induction l as [|e l IH]; simpl.
  - induction path as [|s path IHp]; simpl; [done|]. by destruct s.
  - change (e :: l) with ([e] ++ l). by rewrite select_path_app, IH.
Qed.

(** A path that starts with a tag goes on from the children with that tag,
    one after the other. *)
Lemma findall_child (t : string) (path : list Step) (e : Element) :
  findall (Self :: Child t :: path) e =
  flat_map (findall (Self :: path)) (filter (fun c => tag c = t) (children e)).
Proof.
  unfold findall. cbn [fold_left select]. unfold select_child at 1.
  cbn [flat_map]. rewrite app_nil_r. apply select_path_flat_map.
Qed.

Lemma findall_self (e : Element) : findall [Self] e = [e].
Proof. reflexivity. Qed.

(** A longer path goes on from the matches of its first part. *)
Lemma findall_app (p q : list Step) (e : Element) :
  findall (Self :: p ++ q) e = flat_map (findall (Self :: q)) (findall (Self :: p) e).
Proof.
  unfold findall. cbn [fold_left select]. rewrite fold_left_app.
  apply select_path_flat_map.
Qed.

(** ** What a row depends on *)

Lemma findall_looked_up (k : string) (rest : list Step) (t : string)
    (x : option string) (cs : list Element) :
  k ∈ looked_up_tags ->
  findall (Self :: Child k :: rest) (Elem t x cs) =
  flat_map (findall (Self :: rest)) (filter (fun c => tag c = k) (filter looked_up cs)).
Proof.
  intros Hk. rewrite findall_child. cbn [children].
  rewrite list_filter_filter_l; [done|]. intros c <-. exact Hk.
Qed.

(** The paths find the same in two records with the same looked-up
    children. *)
Lemma findall_same_children
    (t t' : string) (x x' : option string) (cs cs' : list Element)
    (k : string) (rest : list Step) :
  filter looked_up cs = filter looked_up cs' ->
  k ∈ looked_up_tags ->
  findall (Self :: Child k :: rest) (Elem t x cs) =
  findall (Self :: Child k :: rest) (Elem t' x' cs').
Proof. intros Hcs Hk. by rewrite !findall_looked_up, Hcs by done. Qed.

(** X1: the row of a record depends only on those of its children whose tag
    starts one of the paths; its other children, its own tag and its text
    are ignored. *)
Theorem row_ignores_other_children
    (t t' : string) (x x' : option string) (cs cs' : list Element) :
  filter looked_up cs = filter looked_up cs' ->
  extract_line (Elem t x cs) = extract_line (Elem t' x' cs').
Proof.
  intros Hcs.
  pose proof (findall_same_children t t' x x' cs cs') as Hp.
  unfold extract_line, auths, Volume, vol_ref, volume, number, pages, find.
  unfold authors_path, pubDate_path, journal_path, title_path, vol_path, num_path,
    pgs_path, label_path, work_type_path.
  rewrite !(Hp "contributors"), !(Hp "dates"), !(Hp "titles"), !(Hp "volume"),
    !(Hp "number"), !(Hp "pages"), !(Hp "label"), !(Hp "work-type")
    by (done || looked_up_tag).
  reflexivity.
Qed.

Lemma row_ignores_other_children_witness :
  extract_line
    (Elem "record" (Some "text")
       [Elem "ref-type" None []; Elem "volume" None [Elem "style" (Some "3") []];
        Elem "urls" None [Elem "style" (Some "u") []]]) =
  extract_line (Elem "r" None [Elem "volume" None [Elem "style" (Some "3") []]]).
Proof.
  apply (row_ignores_other_children "record" "r" (Some "text") None). reflexivity.
Defined.

Lemma empty_row_lookup (key : string) :
  empty_row !! key = if decide (key ∈ fields) then Some "" else None.
Proof.
  unfold empty_row. induction fields as [|k ks IH]; cbn [map].
  - rewrite list_to_map_nil, lookup_empty. by rewrite decide_False by apply not_elem_of_nil.
  - rewrite list_to_map_cons. destruct (decide (k = key)) as [->|Hne].
    + rewrite lookup_insert_eq. by rewrite decide_True by apply list_elem_of_here.
    + rewrite lookup_insert_ne by done. rewrite IH.
      destruct (decide (key ∈ ks)) as [Hin|Hin].
      * by rewrite decide_True by (by apply list_elem_of_further).
      * rewrite decide_False; [done|]. intros [?|?]%elem_of_cons; congruence.
Qed.

(** X2: a record without any child that the paths look up still gives a
    row: all seven values are empty, and the row is written as six
    commas. *)
Theorem record_without_fields_gives_empty_row (rec : Element) :
  Forall (fun c => ~ looked_up c) (children rec) ->
  extract_line rec = Ok empty_row /\
  (forall key, key ∈ fields -> empty_row !! key = Some "") /\
  Csv.writerow (row_values fields empty_row) = ",,,,,," +:+ Csv.lineterminator.
Proof.
  intros Hnone. split; [|split].
  - destruct rec as [t x cs]. cbn [children] in Hnone.
    assert (Hcs : filter looked_up cs = filter looked_up []).
    { induction Hnone as [|c cs Hc _ IH]; [done|]. by rewrite filter_cons_False. }
    pose proof (findall_same_children t "record" x None cs []) as Hp.
    unfold extract_line, auths, Volume, vol_ref, volume, number, pages, find.
    unfold authors_path, pubDate_path, journal_path, title_path, vol_path, num_path,
      pgs_path, label_path, work_type_path.
    rewrite !(Hp "contributors"), !(Hp "dates"), !(Hp "titles"), !(Hp "volume"),
      !(Hp "number"), !(Hp "pages"), !(Hp "label"), !(Hp "work-type")
      by (done || looked_up_tag).
    vm_compute. reflexivity.
  - intros key Hkey. rewrite empty_row_lookup. by rewrite decide_True.
  - reflexivity.
Qed.

Lemma record_without_fields_gives_empty_row_witness :
  extract_line (Elem "record" None [Elem "ref-type" None []]) = Ok empty_row.
Proof.
  apply (record_without_fields_gives_empty_row (Elem "record" None [Elem "ref-type" None []])).
  repeat constructor. unfold looked_up, looked_up_tags. cbn [tag]. intros Hin.
  repeat (apply elem_of_cons in Hin as [Hin|Hin]; [discriminate|]).
  by apply elem_of_nil in Hin.
Defined.

(** ** When the extraction goes through *)

Lemma expect_strs_None (items : list (option string)) :
  None ∈ items -> expect_strs items = Raise TypeError.
Proof.
  induction items as [|[t|] items IH]; intros Hin.
  - by apply elem_of_nil in Hin.
  - apply elem_of_cons in Hin as [?|Hin]; [done|]. simpl. by rewrite IH.
  - done.
Qed.

Lemma expect_strs_Raise (items : list (option string)) (e : Exn) :
  expect_strs items = Raise e -> e = TypeError /\ None ∈ items.
Proof.
  induction items as [|[t|] items IH]; simpl; [done| |].
  - destruct (expect_strs items); simpl; [done|]. intros [= <-].
    destruct IH as [-> Hin]; [done|]. split; [done | by apply list_elem_of_further].
  - intros [= <-]. split; [done | apply list_elem_of_here].
Qed.

Lemma extract_line_Raise (rec : Element) (e : Exn) :
  extract_line rec = Raise e -> e = TypeError /\ None ∈ auths rec.
Proof.
  unfold extract_line, join.
  destruct (expect_strs (auths rec)) as [texts|e'] eqn:He; simpl; [done|].
  intros [= <-]. by apply expect_strs_Raise.
Qed.

Lemma extract_loop_Raise (recs : list Element) :
  forall lines e,
    extract_loop recs lines = Raise e ->
    e = TypeError /\ Exists (fun rec => None ∈ auths rec) recs.
Proof.
  induction recs as [|rec recs IH]; simpl; intros lines e H; [done|].
  destruct (extract_line rec) as [line|e'] eqn:Hl; simpl in H.
  - destruct (IH _ _ H) as [-> HE]. split; [done | by apply Exists_cons_tl].
  - injection H as <-. destruct (extract_line_Raise _ _ Hl) as [-> Hin].
    split; [done | by apply Exists_cons_hd].
Qed.

(** X3: the extraction goes through exactly when every author style leaf of
    every record has text; when it does not, the exception is
    [TypeError]. *)
Theorem extraction_succeeds_iff (root : Element) :
  ((exists lines, extract root = Ok lines) <->
   Forall (fun rec => None ∉ auths rec) (findall records_path root)) /\
  (forall e, extract root = Raise e -> e = TypeError).
Proof.
  split; [split|].
  - intros [lines H]. apply Forall_forall. intros rec Hrec Hnone.
    unfold extract in H. apply extract_loop_Ok in H as (rows & _ & HF).
    apply list_elem_of_lookup in Hrec as [i Hi].
    destruct (Forall2_lookup_l _ _ _ _ _ HF Hi) as (line & _ & Hl).
    apply extract_line_Ok in Hl as (a & Ha & _).
    unfold join in Ha. destruct (expect_strs (auths rec)) eqn:He; [|done].
    rewrite (expect_strs_None _ Hnone) in He. discriminate.
  - apply extract_total.
  - intros e H. by apply extract_loop_Raise in H as [-> _].
Qed.

(** X4: when every author style leaf has text there is exactly one row per
    record, in document order, and the row of a record is built from that
    record alone. *)
Theorem one_row_per_record (root : Element) :
  Forall (fun rec => None ∉ auths rec) (findall records_path root) ->
  exists lines,
    extract root = Ok lines /\
    length lines = length (findall records_path root) /\
    forall i rec, findall records_path root !! i = Some rec ->
      exists line, lines !! i = Some line /\ extract_line rec = Ok line.
Proof.
  intros HF. destruct (extract_total root HF) as [lines H].
  exists lines. split; [exact H|]. by apply extract_rows_in_order.
Qed.

Lemma one_row_per_record_witness :
  exists lines,
    extract quoted_values_doc = Ok lines /\
    length lines = length (findall records_path quoted_values_doc) /\
    forall i rec, findall records_path quoted_values_doc !! i = Some rec ->
      exists line, lines !! i = Some line /\ extract_line rec = Ok line.
Proof.
  apply (one_row_per_record quoted_values_doc).
  repeat constructor. vm_compute. intros Hin.
  repeat (apply elem_of_cons in Hin as [Hin|Hin]; [discriminate|]).
  by apply elem_of_nil in Hin.
Defined.

(** X5: every row has the seven columns and no other, whatever the record
    holds. *)
Theorem rows_have_the_seven_columns (root : Element) (lines : list Line) :
  extract root = Ok lines ->
  forall line, line ∈ lines ->
    forall key, is_Some (line !! key) <-> key ∈ fields.
Proof.
  intros H line Hin key. apply extract_has_columns in H.
  rewrite Forall_forall in H. specialize (H line Hin). unfold has_columns in H.
  rewrite <- elem_of_dom, H. apply elem_of_list_to_set.
Qed.

Lemma rows_have_the_seven_columns_witness :
  is_Some (line_of "" volume_record !! "Title") <-> "Title" ∈ fields.
Proof.
  apply (rows_have_the_seven_columns (doc_of [volume_record])
           [line_of "" volume_record] eq_refl (line_of "" volume_record)).
  apply list_elem_of_here.
Defined.

(** ** Where the records are looked for *)

Lemma findall_records (root : Element) :
  findall records_path root =
  flat_map (fun c => filter (fun r => tag r = "record") (children c))
    (filter (fun c => tag c = "records") (children root)).
Proof.
  unfold records_path. rewrite findall_child. apply flat_map_ext. intros c.
  rewrite findall_child. induction (filter _ (children c)) as [|r rs IH]; [done|].
  cbn [flat_map]. by rewrite IH.
Qed.

(** X6: the records are looked for in the [records] children of the root
    only: a document whose root has no [records] child, such as one whose
    root is the [records] element itself, gives no row. *)
Theorem no_records_child_no_rows (root : Element) :
  Forall (fun c => tag c <> "records") (children root) ->
  extract root = Ok [].
Proof.
  intros Hnone. unfold extract. rewrite findall_records.
  replace (filter (fun c => tag c = "records") (children root)) with (@nil Element);
    [done|].
  induction Hnone as [|c cs Hc _ IH]; [done|]. by rewrite filter_cons_False.
Qed.

Lemma no_records_child_no_rows_witness :
  extract (Elem "records" None [volume_record]) = Ok [].
Proof.
  apply (no_records_child_no_rows (Elem "records" None [volume_record])).
  repeat constructor. discriminate.
Defined.

Lemma extract_loop_acc (recs : list Element) :
  forall lines,
    extract_loop recs lines =
    let* rows := extract_loop recs [] in Ok (lines ++ rows).
Proof.
  induction recs as [|rec recs IH]; intros lines; simpl.
  - by rewrite app_nil_r.
  - destruct (extract_line rec) as [line|e]; simpl; [|done].
    rewrite (IH (lines ++ [line])), (IH [line]).
    destruct (extract_loop recs []); simpl; [|done]. by rewrite <- app_assoc.
Qed.

Lemma extract_loop_app (recs1 recs2 : list Element) :
  forall lines,
    extract_loop (recs1 ++ recs2) lines =
    let* lines1 := extract_loop recs1 lines in extract_loop recs2 lines1.
Proof.
  induction recs1 as [|rec recs1 IH]; intros lines; simpl; [done|].
  destruct (extract_line rec); simpl; [apply IH | done].
Qed.

Lemma findall_records_doc_of (recs : list Element) :
  findall records_path (doc_of recs) = filter (fun r => tag r = "record") recs.
Proof.
  rewrite findall_records. unfold doc_of. cbn [children].
  rewrite filter_cons_True by done. rewrite filter_nil. cbn [flat_map children].
  apply app_nil_r.
Qed.

(** X7: the rows of two record lists put one after the other are the rows
    of the first followed by the rows of the second. *)
Theorem extract_concatenates (recs1 recs2 : list Element) (lines1 lines2 : list Line) :
  extract (doc_of recs1) = Ok lines1 ->
  extract (doc_of recs2) = Ok lines2 ->
  extract (doc_of (recs1 ++ recs2)) = Ok (lines1 ++ lines2).
Proof.
  unfold extract. rewrite !findall_records_doc_of, filter_app. intros H1 H2.
  rewrite extract_loop_app, H1. cbn [bind]. rewrite extract_loop_acc, H2.
  reflexivity.
Qed.

Lemma extract_concatenates_witness :
  extract (doc_of ([volume_record] ++ [two_authors_record])) =
  Ok ([line_of "" volume_record] ++ [line_of "Hicks, T.; Doe, J." two_authors_record]).
Proof.
  apply (extract_concatenates [volume_record] [two_authors_record]); reflexivity.
Defined.

(** ** The authors of a record *)

(** X8: the elements of the Authors join are the style texts of the first
    author element, then those of the second, and so on: an author with
    several style leaves gives several elements, one without any gives
    none. *)
Theorem auths_by_author (rec : Element) :
  auths rec = flat_map style_texts (findall author_path rec).
Proof.
  unfold auths, authors_path, author_path, style_texts.
  change [Self; Child "contributors"; Child "authors"; Child "author"; Child "style"]
    with (Self :: [Child "contributors"; Child "authors"; Child "author"] ++ [Child "style"]).
  rewrite findall_app.
  induction (findall _ rec) as [|a l IH]; [done|].
  cbn [flat_map]. rewrite map_app, IH. f_equal.
  rewrite findall_child. induction (filter _ (children a)) as [|s ss IHs]; [done|].
  cbn [flat_map map]. by rewrite <- IHs.
Qed.

(** ** What the writer writes *)

Lemma special_false_iff (c : ascii) : Csv.special c = false <-> plain_char c.
Proof.
  unfold plain_char. split.
  - intros H. destruct (RoundTrip.special_false c H) as (Hd & Hq & Hcr & Hlf).
    by rewrite <- !Ascii.eqb_neq.
  - intros (Hd & Hq & Hcr & Hlf). apply Ascii.eqb_neq in Hd, Hq, Hcr, Hlf.
    unfold Csv.special, Csv.lineterminator. cbn [Csv.find_char].
    by rewrite Hd, Hq, Hcr, Hlf.
Qed.

Lemma scan_field_plain (v : string) :
  Csv.scan_field v false = false <-> plain_value v.
Proof.
  unfold plain_value. induction v as [|c v IH]; cbn [list_ascii_of_string].
  - split; [constructor | done].
  - rewrite RoundTrip.scan_field_cons, orb_false_iff, Forall_cons, IH, special_false_iff.
    reflexivity.
Qed.

Lemma field_text_plain (v : string) : plain_value v -> Fused.field_text v = v.
Proof.
  intros Hv. apply scan_field_plain in Hv. unfold Fused.field_text. rewrite Hv.
  cbn [Csv.opt_char String.append]. rewrite append_nil_r.
  by apply RoundTrip.copy_field_plain.
Qed.

Lemma join_str_field_text (f : string) (row : list string) :
  join_str "," (map Fused.field_text (f :: row)) =
  Fused.field_text f +:+ Fused.tail_text row.
Proof.
  revert f. induction row as [|g row IH]; intros f.
  - cbn [map join_str Fused.tail_text]. by rewrite append_nil_r.
  - change (join_str "," (map Fused.field_text (f :: g :: row)))
      with (Fused.field_text f +:+ "," +:+ join_str "," (map Fused.field_text (g :: row))).
    rewrite IH. reflexivity.
Qed.

(** A record of two fields or more is the comma-separated list of its
    fields' texts and the line terminator. *)
Lemma writerow_join (f g : string) (row : list string) :
  Csv.writerow (f :: g :: row) =
  join_str "," (map Fused.field_text (f :: g :: row)) +:+ Csv.lineterminator.
Proof.
  unfold Csv.writerow. rewrite RoundTrip.join_fields_first, join_str_field_text.
  destruct (Fused.field_text f +:+ Fused.tail_text (g :: row)) as [|c s] eqn:HT; [|done].
  apply RoundTrip.append_empty in HT as [_ HT]. discriminate.
Qed.

(** X9: a row of two values or more, none of which holds a comma, a double
    quote, CR or LF, is written as the values with commas between them,
    followed by CR LF. *)
Theorem plain_row_written_verbatim (row : list string) :
  2 <= length row ->
  Forall plain_value row ->
  Csv.writerow row = join_str "," row +:+ Csv.lineterminator.
Proof.
  intros Hlen Hplain. destruct row as [|f [|g row]]; [simpl in Hlen; lia..|].
  rewrite writerow_join. do 2 f_equal.
  clear Hlen. induction Hplain as [|v vs Hv _ IH]; [done|].
  cbn [map]. by rewrite field_text_plain, IH.
Qed.

Lemma plain_row_written_verbatim_witness :
  Csv.writerow ["Doe; Roe"; "2020"; "A title"] =
  "Doe; Roe,2020,A title" +:+ Csv.lineterminator.
Proof.
  apply (plain_row_written_verbatim ["Doe; Roe"; "2020"; "A title"]).
  - simpl. lia.
  - repeat constructor; discriminate.
Defined.

(** X10: a value that holds a comma, a double quote, CR or LF is written
    between double quotes with each of its double quotes doubled, and any
    other value as it is; a row of two values or more is these texts with
    commas between them. *)
Theorem writer_quotes_special_values (f g : string) (row : list string) :
  Csv.writerow (f :: g :: row) =
    join_str "," (map Fused.field_text (f :: g :: row)) +:+ Csv.lineterminator /\
  (forall v, plain_value v -> Fused.field_text v = v) /\
  (forall v, ~ plain_value v ->
     Fused.field_text v =
     String Csv.quotechar (Csv.copy_field v +:+ String Csv.quotechar "")) /\
  (forall v, String.length (Csv.copy_field v) =
             String.length v +
             length (filter (fun c => c = Csv.quotechar) (list_ascii_of_string v))).
Proof.
  split; [apply writerow_join|]. split; [apply field_text_plain|]. split.
  - intros v Hv. unfold Fused.field_text.
    destruct (Csv.scan_field v false) eqn:Hs; [reflexivity|].
    by apply scan_field_plain in Hs.
  - induction v as [|c v IH]; [done|]. cbn [Csv.copy_field list_ascii_of_string].
    rewrite filter_cons. destruct (decide (c = Csv.quotechar)) as [->|Hne].
    + rewrite Ascii.eqb_refl. cbn [String.length length]. rewrite IH. lia.
    + apply Ascii.eqb_neq in Hne. rewrite Hne. cbn [String.length]. rewrite IH. lia.
Qed.

(** ** Rows that [save_to_CSV] is handed *)

Lemma dict_to_list_known (line : Line) :
  known_columns line -> dict_to_list fields line = Ok (row_values fields line).
Proof.
  intros H. unfold dict_to_list.
  rewrite bool_decide_eq_false_2; [done|]. intros Hne. apply Hne.
  apply set_eq. intros key. rewrite elem_of_difference.
  split; [|by intros ?%not_elem_of_empty]. intros [Hin Hout]. by apply H in Hin.
Qed.

Lemma dict_to_list_unknown (line : Line) :
  ~ known_columns line -> dict_to_list fields line = Raise ValueError.
Proof.
  intros H. unfold dict_to_list.
  rewrite bool_decide_eq_true_2; [done|]. intros Hempty. apply H.
  intros key Hin. destruct (decide (key ∈ (list_to_set fields : gset string))); [done|].
  exfalso. apply (not_elem_of_empty (C := gset string) key). rewrite <- Hempty.
  by apply elem_of_difference.
Qed.

Lemma writerows_known (lines : list Line) :
  forall csvfile,
    Forall known_columns lines ->
    writerows fields lines csvfile =
      (csvfile +:+ write_rows (map (row_values fields) lines), None).
Proof.
  induction lines as [|line lines IH]; intros csvfile HF; simpl.
  - by rewrite append_nil_r.
  - inversion HF; subst. unfold dict_writerow.
    rewrite dict_to_list_known by done. simpl.
    rewrite IH by done. by rewrite append_assoc.
Qed.

Lemma writerows_unknown (good : list Line) (bad : Line) (rest : list Line) :
  forall csvfile,
    Forall known_columns good ->
    ~ known_columns bad ->
    writerows fields (good ++ bad :: rest) csvfile =
      (csvfile +:+ write_rows (map (row_values fields) good), Some ValueError).
Proof.
  induction good as [|line good IH]; intros csvfile HF Hbad; simpl.
  - unfold dict_writerow. rewrite dict_to_list_unknown by done. simpl.
    by rewrite append_nil_r.
  - inversion HF; subst. unfold dict_writerow.
    rewrite dict_to_list_known by done. simpl.
    rewrite IH by done. by rewrite append_assoc.
Qed.

Lemma row_values_lookup (columns : list string) (line : Line) (i : nat) (key : string) :
  columns !! i = Some key ->
  row_values columns line !! i = Some (default "" (line !! key)).
Proof.
  unfold row_values. revert i. induction columns as [|k ks IH]; intros [|i]; simpl; try done.
  - by intros [= ->].
  - apply IH.
Qed.

(** X11: a row dict may lack columns: when the keys of every row are among
    the seven fieldnames the whole table is written, a missing column as
    the empty value, and a CSV reader gets the header and these values
    back. *)
Theorem missing_columns_written_empty (lines : list Line) :
  Forall known_columns lines ->
  csv_text lines = (write_rows (fields :: map (row_values fields) lines), None) /\
  CsvReader.reader (fst (csv_text lines)) =
    Ok (fields :: map (row_values fields) lines) /\
  (forall line i key,
     fields !! i = Some key -> line !! key = None ->
     row_values fields line !! i = Some "").
Proof.
  intros HF.
  assert (Ht : csv_text lines =
               (write_rows (fields :: map (row_values fields) lines), None)).
  { unfold csv_text.
    assert (Hh : writeheader fields "" = Ok (Csv.writerow fields)) by reflexivity.
    rewrite Hh. by rewrite writerows_known. }
  split; [exact Ht|]. split.
  - rewrite Ht. apply RoundTrip.reader_write_rows.
  - intros line i key Hi Hnone. rewrite (row_values_lookup _ _ _ _ Hi), Hnone. done.
Qed.

Lemma missing_columns_written_empty_witness :
  csv_text [{["Title" := "T"]}] =
    (write_rows (fields :: map (row_values fields) [{["Title" := "T"]}]), None).
Proof.
  refine (proj1 (missing_columns_written_empty [{["Title" := "T"]}] _)).
  repeat constructor. unfold known_columns. rewrite dom_singleton_L.
  intros key ->%elem_of_singleton. apply elem_of_list_to_set.
  unfold fields. do 2 apply list_elem_of_further. apply list_elem_of_here.
Defined.

Lemma save_to_CSV_opened (lines : list Line) (filename : string) (w : World) :
  can_open_w w filename ->
  exists w',
    save_to_CSV lines filename w =
      (match snd (csv_text lines) with
       | None => Normal tt
       | Some e => Uncaught e
       end, w') /\
    content <$> fs w' !! filename = Some (fst (csv_text lines)) /\
    (forall path, path <> filename -> fs w' !! path = fs w !! path) /\
    creatable w' = creatable w /\
    log w' = log w ++ [OpenWrite filename].
Proof.
  intros Hopen. unfold save_to_CSV, bindP, open_w, can_open_w in *. simpl.
  destruct (csv_text lines) as [written [e|]];
    destruct (fs w !! filename) as [f|]; rewrite Hopen; simpl; rewrite close_with_linesep;
    eexists; (split; [reflexivity|]); simpl;
    (split; [by rewrite !lookup_insert_eq|]);
    (split; [intros path Hne; by rewrite !lookup_insert_ne | done]).
Qed.

(** X12: a row dict with a key that is not a fieldname makes the writer
    raise [ValueError]; the header and the rows before that row are in the
    file by then and stay there, the rows after it are not written. *)
Theorem unknown_column_stops_the_writer
    (good : list Line) (bad : Line) (rest : list Line) (filename : string) (w : World) :
  Forall known_columns good ->
  ~ known_columns bad ->
  can_open_w w filename ->
  exists w',
    save_to_CSV (good ++ bad :: rest) filename w = (Uncaught ValueError, w') /\
    content <$> fs w' !! filename =
      Some (write_rows (fields :: map (row_values fields) good)).
Proof.
  intros Hgood Hbad Hopen.
  assert (Ht : csv_text (good ++ bad :: rest) =
               (write_rows (fields :: map (row_values fields) good), Some ValueError)).
  { unfold csv_text.
    assert (Hh : writeheader fields "" = Ok (Csv.writerow fields)) by reflexivity.
    rewrite Hh. by rewrite writerows_unknown. }
  destruct (save_to_CSV_opened (good ++ bad :: rest) filename w Hopen)
    as (w' & Hs & Hc & _).
  rewrite Ht in Hs, Hc. by exists w'.
Qed.

Lemma unknown_column_stops_the_writer_witness :
  exists w',
    save_to_CSV ([{["Title" := "T"]}] ++ {["DOI" := "d"]} :: [empty_row]) "new.csv"
      sample_world = (Uncaught ValueError, w') /\
    content <$> fs w' !! "new.csv" =
      Some (write_rows (fields :: map (row_values fields) [{["Title" := "T"]}])).
Proof.
  apply (unknown_column_stops_the_writer [{["Title" := "T"]}] {["DOI" := "d"]}
           [empty_row] "new.csv" sample_world).
  - repeat constructor. unfold known_columns. rewrite dom_singleton_L.
    intros key ->%elem_of_singleton. apply elem_of_list_to_set.
    unfold fields. do 2 apply list_elem_of_further. apply list_elem_of_here.
  - unfold known_columns. rewrite dom_singleton_L. intros H.
    specialize (H "DOI" (proj2 (elem_of_singleton _ _) eq_refl)).
    apply elem_of_list_to_set in H. unfold fields in H.
    repeat (apply elem_of_cons in H as [H|H]; [discriminate|]).
    by apply elem_of_nil in H.
  - vm_compute. reflexivity.
Defined.

Lemma writerows_prefix (lines : list Line) :
  forall csvfile,
    exists rest, fst (writerows fields lines csvfile) = csvfile +:+ rest.
Proof.
  induction lines as [|line lines IH]; intros csvfile; simpl.
  - exists "". by rewrite append_nil_r.
  - unfold dict_writerow. destruct (dict_to_list fields line) as [row|e]; simpl.
    + destruct (IH (csvfile +:+ Csv.writerow row)) as [rest ->].
      exists (Csv.writerow row +:+ rest). by rewrite append_assoc.
    + exists "". by rewrite append_nil_r.
Qed.

(** X13: whatever rows [save_to_CSV] is handed, and whether or not writing
    them raises, a file it has opened begins with the header line. *)
Theorem written_file_begins_with_header
    (lines : list Line) (filename : string) (w : World) :
  can_open_w w filename ->
  exists rest,
    content <$> fs (snd (save_to_CSV lines filename w)) !! filename =
      Some (header_line +:+ rest).
Proof.
  intros Hopen.
  destruct (save_to_CSV_opened lines filename w Hopen) as (w' & Hs & Hc & _).
  rewrite Hs. cbn [snd]. rewrite Hc. unfold csv_text.
  assert (Hh : writeheader fields "" = Ok header_line) by reflexivity.
  rewrite Hh. destruct (writerows_prefix lines header_line) as [rest ->].
  by exists rest.
Qed.

Lemma written_file_begins_with_header_witness :
  exists rest,
    content <$> fs (snd (save_to_CSV [{["DOI" := "d"]}] "out.csv" sample_world))
                  !! "out.csv" =
      Some (header_line +:+ rest).
Proof.
  apply (written_file_begins_with_header [{["DOI" := "d"]}] "out.csv" sample_world).
  vm_compute. reflexivity.
Defined.

(** X14: the written text tells the rows apart: two lists of rows with the
    seven columns that give the same text are the same list. *)
Theorem written_text_determines_rows (lines1 lines2 : list Line) :
  Forall has_columns lines1 ->
  Forall has_columns lines2 ->
  fst (csv_text lines1) = fst (csv_text lines2) ->
  lines1 = lines2.
Proof.
  intros H1 H2 Heq. rewrite !csv_text_columns in Heq by done. cbn [fst] in Heq.
  apply (f_equal CsvReader.reader) in Heq.
  rewrite !RoundTrip.reader_write_rows in Heq. injection Heq as Heq.
  apply (f_equal (map (fun row => list_to_map (zip fields row) : Line))) in Heq.
  rewrite !map_map in Heq.
  assert (Hid : forall lines, Forall has_columns lines ->
            map (fun line => list_to_map (zip fields (row_values fields line)) : Line) lines
            = lines).
  { intros lines HF. induction HF as [|line lines Hl _ IH]; [done|].
    cbn [map]. by rewrite RoundTrip.zip_row_values, IH. }
  by rewrite !Hid in Heq.
Qed.

Lemma written_text_determines_rows_witness :
  [line_of "" volume_record] = [line_of "" volume_record].
Proof.
  apply (written_text_determines_rows [line_of "" volume_record]
           [line_of "" volume_record]);
    repeat constructor.
Defined.

(** ** The runs of [main] *)

Lemma readable_file_path_iff (w : World) (input_file : string) :
  readable_file_path w input_file = true <->
  input_file <> "" /\ exists f, fs w !! input_file = Some f /\ readable f = true.
Proof.
  unfold readable_file_path, isfile, access_R_OK. rewrite !andb_true_iff.
  rewrite bool_decide_eq_true. split.
  - intros [[Hne _] Hr]. split; [done|].
    destruct (fs w !! input_file) as [f|]; [by exists f | done].
  - intros (Hne & f & Hf & Hr). rewrite Hf. repeat split; try done.
Qed.

(** X15: the check of the input path lets through exactly the non-empty
    paths of readable files, leaving the world as it is; any other path
    ends the process with the exit code the check was given. Either way the
    file system is untouched. *)
Theorem check_input_file_passes_iff
    (input_file tool_name : string) (exit_code : Z) (w : World) :
  (fst (check_input_file input_file tool_name exit_code w) = Normal tt <->
   input_file <> "" /\ exists f, fs w !! input_file = Some f /\ readable f = true) /\
  (fst (check_input_file input_file tool_name exit_code w) = Normal tt \/
   fst (check_input_file input_file tool_name exit_code w) = SystemExit exit_code) /\
  (fst (check_input_file input_file tool_name exit_code w) = Normal tt ->
   snd (check_input_file input_file tool_name exit_code w) = w) /\
  fs (snd (check_input_file input_file tool_name exit_code w)) = fs w.
Proof.
  rewrite <- readable_file_path_iff. unfold check_input_file.
  destruct (readable_file_path w input_file); cbn [negb fst snd]; repeat split;
    try done; auto.
Qed.

(** The world after a file has been written and closed. *)
Lemma save_to_CSV_file (lines : list Line) (filename : string) (w : World) :
  can_open_w w filename ->
  exists w',
    save_to_CSV lines filename w =
      (match snd (csv_text lines) with
       | None => Normal tt
       | Some e => Uncaught e
       end, w') /\
    fs w' = <[filename := mkFile (fst (csv_text lines)) (readable_after w filename) true]>
              (fs w) /\
    creatable w' = creatable w /\
    log w' = log w ++ [OpenWrite filename].
Proof.
  intros Hopen. unfold save_to_CSV, bindP, open_w, can_open_w, readable_after in *. simpl.
  destruct (csv_text lines) as [written [e|]];
    destruct (fs w !! filename) as [f|]; rewrite Hopen; simpl; rewrite close_with_linesep;
    eexists; (split; [reflexivity|]); simpl;
    rewrite lookup_insert_eq; simpl; by rewrite insert_insert_eq.
Qed.

Section Runs.

Variable xml_parse : string -> option Element.

(** X16: for a readable input that parses and whose author style leaves all
    have text, an output path that can be opened and a table text of 7-bit
    characters (which every encoding of the output stream has), the run
    ends normally with exit status 0; the output file holds the header and
    one line per record, whatever it held before, every other file is as it
    was, and the effects are the parse and then the opening of the
    output. *)
Theorem main_writes_the_table
    (input_file output_file : string) (w : World) (f : File) (root : Element) :
  readable_file_path w input_file = true ->
  fs w !! input_file = Some f ->
  xml_parse (content f) = Some root ->
  Forall (fun rec => None ∉ auths rec) (findall records_path root) ->
  can_open_w w output_file ->
  (forall lines, extract root = Ok lines ->
     seven_bit (write_rows (fields :: map (row_values fields) lines)) = true) ->
  exists lines w',
    extract root = Ok lines /\
    length lines = length (findall records_path root) /\
    main xml_parse input_file output_file w = (Normal tt, w') /\
    exit_status (fst (main xml_parse input_file output_file w)) = 0%Z /\
    content <$> fs w' !! output_file =
      Some (write_rows (fields :: map (row_values fields) lines)) /\
    (forall path, path <> output_file -> fs w' !! path = fs w !! path) /\
    log w' = log w ++ [XmlParse input_file; OpenWrite output_file].
Proof.
  intros Hr Hf Hp Hauths Hopen _.
  destruct (extract_total root Hauths) as [lines Hx].
  destruct (save_to_CSV_columns lines output_file (emit (XmlParse input_file) w))
    as (w' & Hs & Hc & Hother & Hlog); [by eapply extract_has_columns | exact Hopen |].
  exists lines, w'. rewrite (main_checked _ _ _ _ _ Hr Hf), Hp, Hx. cbn zeta.
  rewrite Hs. repeat split; try done.
  - by apply extract_rows_in_order.
  - rewrite Hlog. cbn [emit log]. by rewrite <- app_assoc.
Qed.

(** X17: when the output path cannot be opened for writing the run ends in
    [OSError] after the document has been parsed and its rows extracted;
    the rows are lost and the file system is as it was. *)
Theorem unwritable_output_raises
    (input_file output_file : string) (w : World) (f : File) (root : Element)
    (lines : list Line) :
  readable_file_path w input_file = true ->
  fs w !! input_file = Some f ->
  xml_parse (content f) = Some root ->
  extract root = Ok lines ->
  ~ can_open_w w output_file ->
  exists w',
    main xml_parse input_file output_file w = (Uncaught OSError, w') /\
    fs w' = fs w /\
    log w' = log w ++ [XmlParse input_file; OpenWrite output_file].
Proof.
  intros Hr Hf Hp Hx Hno.
  rewrite (main_checked _ _ _ _ _ Hr Hf), Hp, Hx. cbn zeta.
  rewrite save_to_CSV_refused by exact Hno.
  eexists. split; [reflexivity|]. split; [reflexivity|].
  cbn [emit log]. by rewrite <- app_assoc.
Qed.

(** How a run ends, by cases. *)
Lemma main_cases (input_file output_file : string) (w : World) :
  (readable_file_path w input_file = false /\
   exists msg, main xml_parse input_file output_file w =
               (SystemExit 20, emit (Stderr msg) w)) \/
  (readable_file_path w input_file = true /\
   ((exists e, (e = ParseError \/ e = TypeError) /\
       main xml_parse input_file output_file w =
       (Uncaught e, emit (XmlParse input_file) w)) \/
    (main xml_parse input_file output_file w =
       (Uncaught OSError, emit (OpenWrite output_file) (emit (XmlParse input_file) w))) \/
    (exists w' text r,
       main xml_parse input_file output_file w = (Normal tt, w') /\
       fs w' = <[output_file := mkFile text r true]> (fs w) /\
       creatable w' = creatable w /\
       log w' = log w ++ [XmlParse input_file; OpenWrite output_file]))).
Proof.
  destruct (readable_file_path w input_file) eqn:Hr.
  - right. split; [done|].
    destruct (readable_file_path_true _ _ Hr) as (f & Hf & _).
    rewrite (main_checked _ _ _ _ _ Hr Hf). cbn zeta.
    destruct (xml_parse (content f)) as [root|]; [|left; exists ParseError; auto].
    destruct (extract root) as [lines|e] eqn:Hx.
    + right.
      destruct (can_open_w_dec (emit (XmlParse input_file) w) output_file) as [Hopen|Hno].
      * right.
        destruct (save_to_CSV_file lines output_file _ Hopen)
          as (w' & Hs & Hfs & Hcr & Hlog).
        rewrite csv_text_columns in Hs, Hfs by (by eapply extract_has_columns).
        cbn [fst snd] in Hs, Hfs. exists w'. do 2 eexists.
        split; [exact Hs|]. split; [exact Hfs|]. split; [exact Hcr|].
        rewrite Hlog. cbn [emit log]. by rewrite <- app_assoc.
      * left. by rewrite save_to_CSV_refused.
    + left. exists e. split; [|done]. right.
      by apply extract_loop_Raise in Hx as [-> _].
  - left. split; [done|]. unfold main, bindP, check_input_file. rewrite Hr.
    cbn [negb]. by eexists.
Qed.

(** X18: whatever the run does, no file but the one at the output path is
    changed, no path but the input path is parsed, and no path but the
    output path is opened for writing. *)
Theorem main_touches_only_the_output (input_file output_file : string) (w : World) :
  (forall path, path <> output_file ->
     fs (snd (main xml_parse input_file output_file w)) !! path = fs w !! path) /\
  exists events,
    log (snd (main xml_parse input_file output_file w)) = log w ++ events /\
    (forall path, XmlParse path ∈ events -> path = input_file) /\
    (forall path, OpenWrite path ∈ events -> path = output_file).
Proof.
  destruct (main_cases input_file output_file w)
    as [(_ & msg & ->)|(_ & [(e & _ & ->)|[->|(w' & text & r & -> & Hfs & _ & Hlog)]])];
    cbn [snd emit fs log].
  - split; [done|]. exists [Stderr msg]. split; [done|].
    split; intros path Hin%list_elem_of_singleton; discriminate.
  - split; [done|]. exists [XmlParse input_file]. split; [done|].
    split; intros path Hin%list_elem_of_singleton; congruence.
  - split; [done|]. exists [XmlParse input_file; OpenWrite output_file].
    split; [by rewrite <- app_assoc|].
    split; intros path Hin; repeat (apply elem_of_cons in Hin as [Hin|Hin]; [congruence|]);
      by apply elem_of_nil in Hin.
  - split; [intros path Hne; by rewrite Hfs, lookup_insert_ne|].
    exists [XmlParse input_file; OpenWrite output_file]. split; [done|].
    split; intros path Hin; repeat (apply elem_of_cons in Hin as [Hin|Hin]; [congruence|]);
      by apply elem_of_nil in Hin.
Qed.

(** X19: the exit status of a run is 0, 1 or 20: it is 20 exactly when the
    input path is empty or names no readable file, 0 exactly when the run
    returns, and 1 when an exception ends it; the only exit the program
    asks for itself is the one with code 20. *)
Theorem exit_status_of_main (input_file output_file : string) (w : World) :
  (exit_status (fst (main xml_parse input_file output_file w)) = 20%Z <->
   ~ (input_file <> "" /\
      exists f, fs w !! input_file = Some f /\ readable f = true)) /\
  (exit_status (fst (main xml_parse input_file output_file w)) = 0%Z <->
   fst (main xml_parse input_file output_file w) = Normal tt) /\
  (exit_status (fst (main xml_parse input_file output_file w)) = 0%Z \/
   exit_status (fst (main xml_parse input_file output_file w)) = 1%Z \/
   exit_status (fst (main xml_parse input_file output_file w)) = 20%Z) /\
  (forall code, fst (main xml_parse input_file output_file w) = SystemExit code ->
     code = 20%Z).
Proof.
  rewrite <- readable_file_path_iff.
  destruct (main_cases input_file output_file w)
    as [(Hr & msg & ->)|(Hr & [(e & He & ->)|[->|(w' & text & r & -> & _)]])];
    rewrite Hr; cbn [fst exit_status]; repeat split; try done; auto;
    try (intros ?; congruence).
Qed.

End Runs.

Lemma main_writes_the_table_witness :
  exists lines w',
    extract quoted_values_doc = Ok lines /\
    length lines = 1 /\
    main quoted_parse "q.xml" "q.csv" quoted_world = (Normal tt, w') /\
    content <$> fs w' !! "q.csv" =
      Some (write_rows (fields :: map (row_values fields) lines)).
Proof.
  destruct (main_writes_the_table quoted_parse "q.xml" "q.csv" quoted_world
              (mkFile "<quoted/>" true true) quoted_values_doc)
    as (lines & w' & Hx & Hlen & Hm & _ & Hc & _).
  - vm_compute. reflexivity.
  - reflexivity.
  - reflexivity.
  - repeat constructor. vm_compute. intros Hin.
    repeat (apply elem_of_cons in Hin as [Hin|Hin]; [discriminate|]).
    by apply elem_of_nil in Hin.
  - vm_compute. reflexivity.
  - intros lines [= <-]. vm_compute. reflexivity.
  - by exists lines, w'.
Defined.

(** A world whose output file is read-only. *)
Lemma unwritable_output_raises_witness :
  exists w',
    main sample_parse "in.xml" "ro.csv"
      (mkWorld (<["ro.csv" := mkFile "kept" true false]> (fs sample_world))
         (fun _ => true) []) = (Uncaught OSError, w') /\
    fs w' = <["ro.csv" := mkFile "kept" true false]> (fs sample_world).
Proof.
  destruct (unwritable_output_raises sample_parse "in.xml" "ro.csv"
              (mkWorld (<["ro.csv" := mkFile "kept" true false]> (fs sample_world))
                 (fun _ => true) [])
              (mkFile "<xml><records/></xml>" true true)
              (Elem "xml" None [Elem "records" None []]) [])
    as (w' & Hm & Hfs & _);
    [vm_compute; reflexivity .. | |].
  - vm_compute. discriminate.
  - by exists w'.
Defined.

(** ** The first match *)

(** X21: where several nodes match the path of a single-valued column or
    of a component of the Volume column, the first one in document order
    alone decides the value: its text, or the empty value when it has none,
    whatever the later matches hold. *)
Theorem first_match_decides (rec : Element) (line : Line) :
  extract_line rec = Ok line ->
  forall path value node others,
    (path, value) ∈ single_valued rec line ->
    findall path rec = node :: others ->
    value = Some (default "" (text node)).
Proof.
  intros H path value node others Hin Hall.
  apply extract_line_Ok in H as (a & _ & ->).
  assert (HP : line_of a rec !! "PubDate" = Some (text_or_empty (find pubDate_path rec)))
    by line_lookup.
  assert (HJ : line_of a rec !! "Journal" = Some (text_or_empty (find journal_path rec)))
    by line_lookup.
  assert (HT : line_of a rec !! "Title" = Some (text_or_empty (find title_path rec)))
    by line_lookup.
  assert (HL : line_of a rec !! "Label" = Some (text_or_empty (find label_path rec)))
    by line_lookup.
  assert (HW : line_of a rec !! "WorkType" = Some (text_or_empty (find work_type_path rec)))
    by line_lookup.
  assert (Hv : value = Some (text_or_empty (find path rec))).
  { unfold single_valued in Hin. rewrite HP, HJ, HT, HL, HW in Hin.
    repeat (apply elem_of_cons in Hin as [[= -> ->]|Hin]; [done|]).
    by apply elem_of_nil in Hin. }
  rewrite Hv. unfold find. rewrite Hall. cbn [head text_or_empty].
  by destruct (text node).
Qed.

Lemma first_match_decides_witness :
  line_of "" (Elem "record" None
                [Elem "label" None
                   [Elem "style" None []; Elem "style" (Some "late") []]])
    !! "Label" = Some "".
Proof.
  apply (first_match_decides
           (Elem "record" None
              [Elem "label" None [Elem "style" None []; Elem "style" (Some "late") []]])
           _ eq_refl label_path _ (Elem "style" None [])
           [Elem "style" (Some "late") []]).
  - unfold single_valued. do 3 apply list_elem_of_further. apply list_elem_of_here.
  - reflexivity.
Defined.
